(** * pangolin / scripts / all_snps.py : a shallow embedding

    The script reads an alignment, annotates every record with its N content,
    its SNPs against the reference and the [;]-joined SNP string, groups the
    records by lineage and, for each lineage, derives the singleton SNPs to
    mask, the defining SNPs and a list of representative records.

    Conventions of the embedding.
    - Python [str] is [string] (residues and identifiers are ASCII).
    - Python exceptions are the constructors of [exn]; a function that can
      raise returns a [result].
    - Python floats ([pcent_N], the inclusion percentage, the cut-offs) are
      read as the exact rationals they approximate ([Q]); every use the
      script makes of them is a comparison or [int()].
    - [dict] and [collections.defaultdict(list)] keep insertion order, and
      the script iterates over them: they are association lists in insertion
      order ([dict]).
    - A Python [set] is a duplicate-free list; the order in which [list(set)]
      enumerates it is not specified by Python and is a parameter
      ([list_of_set]) of everything that depends on it. *)

From Stdlib Require Import List String Ascii Arith ZArith QArith Qround Lia Bool.
From Stdlib Require Import Permutation Sorted DecimalString DecimalNat OrderedTypeEx.
Import ListNotations.

Open Scope string_scope.
Open Scope list_scope.
Open Scope nat_scope.

(** ** Exceptions *)

Inductive exn : Type :=
| ZeroDivisionError
| IndexError
| ValueError
| AttributeError
| TypeError.

Inductive result (A : Type) : Type :=
| Ok (a : A)
| Raise (e : exn).

Arguments Ok {A} a.
Arguments Raise {A} e.

Definition bind {A B : Type} (m : result A) (k : A -> result B) : result B :=
  match m with
  | Ok a => k a
  | Raise e => Raise e
  end.

Notation "x <- m ;; k" := (bind m (fun x => k))
  (at level 61, m at next level, right associativity).
Notation "' p <- m ;; k" := (bind m (fun p => k))
  (at level 61, p pattern, m at next level, right associativity).

Fixpoint mapM {A B : Type} (f : A -> result B) (l : list A) : result (list B) :=
  match l with
  | [] => Ok []
  | a :: l' => b <- f a ;; bs <- mapM f l' ;; Ok (b :: bs)
  end.

Fixpoint foldM {A S : Type} (f : S -> A -> result S) (l : list A) (s : S) : result S :=
  match l with
  | [] => Ok s
  | a :: l' => s' <- f s a ;; foldM f l' s'
  end.

(** ** Python built-ins used by the script *)

Module Py.

(** [str.lower] and [str.upper] on one ASCII character. *)
Definition is_upper (c : ascii) : bool :=
  (65 <=? nat_of_ascii c) && (nat_of_ascii c <=? 90).

Definition is_lower (c : ascii) : bool :=
  (97 <=? nat_of_ascii c) && (nat_of_ascii c <=? 122).

Definition lower (c : ascii) : ascii :=
  if is_upper c then ascii_of_nat (nat_of_ascii c + 32) else c.

Definition upper (c : ascii) : ascii :=
  if is_lower c then ascii_of_nat (nat_of_ascii c - 32) else c.

Fixpoint str_upper (s : string) : string :=
  match s with
  | EmptyString => EmptyString
  | String c s' => String (upper c) (str_upper s')
  end.

(** [s.count(c)] for a one-character needle. *)
Fixpoint count (c : ascii) (s : string) : nat :=
  match s with
  | EmptyString => 0
  | String a s' => (if Ascii.eqb a c then 1 else 0) + count c s'
  end.

(** [f"{n}"] for a non-negative [int]. *)
Definition str_of_int (n : nat) : string :=
  NilEmpty.string_of_uint (Nat.to_uint n).

(** [int(s)] on a [str].  The script only ever applies [int] to a (possibly
    empty) run of decimal digits, where Python returns the number or raises
    [ValueError] on the empty string; any other character is rejected. *)
Definition int (s : string) : result nat :=
  match s with
  | EmptyString => Raise ValueError
  | _ => match NilEmpty.uint_of_string s with
         | Some d => Ok (Nat.of_uint d)
         | None => Raise ValueError
         end
  end.

(** [int(x)] on a [float]: truncation towards zero. *)
Definition int_of_float (x : Q) : Z :=
  Z.quot (Qnum x) (Zpos (Qden x)).

(** [x[:-2]]. *)
Definition drop_last2 (x : string) : string :=
  substring 0 (String.length x - 2) x.

(** [s.split(";")]. *)
Fixpoint split_semi (s : string) : list string :=
  match s with
  | EmptyString => [EmptyString]
  | String c s' =>
      if Ascii.eqb c ";" then EmptyString :: split_semi s'
      else match split_semi s' with
           | [] => [String c EmptyString]
           | h :: t => String c h :: t
           end
  end.

(** [sorted(l, key=key)]: Python's sort is stable, and a stable sort has one
    possible result; it is written here as a stable insertion sort. *)
Section Sorted.
Context {A K : Type} (leb : K -> K -> bool) (key : A -> K).

Fixpoint insert (x : A) (l : list A) : list A :=
  match l with
  | [] => [x]
  | y :: l' => if leb (key x) (key y) then x :: y :: l' else y :: insert x l'
  end.

Fixpoint sorted (l : list A) : list A :=
  match l with
  | [] => []
  | x :: l' => insert x (sorted l')
  end.
End Sorted.

(** [round(x, 2)], round-half-even on the exact value. *)
Definition round2 (x : Q) : Q :=
  let y := (x * 100)%Q in
  let f := Qfloor y in
  let twice := (2 * (y - inject_Z f))%Q in
  let n := if Qle_bool twice 1
           then (if Qeq_bool twice 1 then (if Z.even f then f else f + 1)%Z else f)
           else (f + 1)%Z in
  (n # 100)%Q.

End Py.

(** [a > b] on floats. *)
Definition Qgtb (a b : Q) : bool := negb (Qle_bool a b).

(** ** Records *)

(** A [SeqRecord] of the alignment once the three annotations
    ([pcent_N], [snps], [snp_string]) are attached. *)
Record SeqRecord : Type := mkSeqRecord {
  id : string;
  seq : string;
  pcent_N : Q;
  snps : list string;
  snp_string : string
}.

(** ** all_snps.py *)

(** [find_snps(ref, member)], the loop over [range(len(ref))] read column by
    column; [index] is the counter of non-gap reference columns so far.
    [member[i]] raises [IndexError] when the member is shorter. *)
Definition unambiguous (m : ascii) : bool :=
  existsb (Ascii.eqb (Py.lower m)) ["a"; "g"; "t"; "c"; "-"]%char.

Definition format_snp (index : nat) (r m : ascii) : string :=
  Py.str_of_int index ++ String (Py.upper r) (String (Py.upper m) EmptyString).

Fixpoint find_snps_from (index : nat) (ref member : string) : result (list string) :=
  match ref with
  | EmptyString => Ok []
  | String r ref' =>
      let index := if Ascii.eqb r "-" then index else S index in
      match member with
      | EmptyString => Raise IndexError
      | String m member' =>
          rest <- find_snps_from index ref' member' ;;
          if negb (Ascii.eqb r m) && unambiguous m
          then Ok (format_snp index r m :: rest)
          else Ok rest
      end
  end.

Definition find_snps (ref member : string) : result (list string) :=
  find_snps_from 0 ref member.

(** [pcent_done(c, total)]. *)
Definition pcent_done (c total : nat) : result Q :=
  if total =? 0 then Raise ZeroDivisionError
  else Ok (Py.round2 (Z.of_nat (c * 100) # Pos.of_nat total)).

(** [get_N_content(seq)]. *)
Definition get_N_content (seq : string) : result Q :=
  let num_N := Py.count "N" (Py.str_upper seq) in
  if String.length seq =? 0 then Raise ZeroDivisionError
  else Ok (Z.of_nat (num_N * 100) # Pos.of_nat (String.length seq)).

(** [snp_list_to_snp_string(snp_list)]: the key [int(x[:-2])] is computed
    for every element before the sort, and raises on the first element that
    has no leading number. *)
Definition position_key (x : string) : result (nat * string) :=
  k <- Py.int (Py.drop_last2 x) ;; Ok (k, x).

Definition snp_list_to_snp_string (snp_list : list string) : result string :=
  keyed <- mapM position_key snp_list ;;
  Ok (String.concat ";" (map snd (Py.sorted Nat.leb fst keyed))).

(** ** Insertion-ordered dictionaries of lists ([collections.defaultdict(list)]) *)

Definition dict (V : Type) : Type := list (string * list V).

(** [d[k].append(v)]: a new key goes to the end of the iteration order. *)
Fixpoint dict_append {V : Type} (k : string) (v : V) (d : dict V) : dict V :=
  match d with
  | [] => [(k, [v])]
  | (k', vs) :: d' =>
      if String.eqb k k' then (k', vs ++ [v]) :: d'
      else (k', vs) :: dict_append k v d'
  end.

(** [d[k]] (the empty list for an absent key). *)
Fixpoint dict_get {V : Type} (k : string) (d : dict V) : list V :=
  match d with
  | [] => []
  | (k', vs) :: d' => if String.eqb k k' then vs else dict_get k d'
  end.

Definition keys {V : Type} (d : dict V) : list string := map fst d.

Definition str_in (x : string) (l : list string) : bool :=
  existsb (String.eqb x) l.

(** ** SNP classifier *)

(** A mask row: [(lineage, snp, taxon)]. *)
Definition mask_row : Type := (string * string * string)%type.

(** [get_singleton_snps(lineage, snp_counter)]. *)
Fixpoint get_singleton_snps (lineage : string) (snp_counter : dict string) : list mask_row :=
  match snp_counter with
  | [] => []
  | (snp, ids) :: rest =>
      match ids with
      | [taxon] => (lineage, snp, taxon) :: get_singleton_snps lineage rest
      | _ => get_singleton_snps lineage rest
      end
  end.

(** [get_inclusion_pcent(snp, snp_counter, total_in_lineage)]. *)
Definition get_inclusion_pcent (snp : string) (snp_counter : dict string)
    (total_in_lineage : nat) : result Q :=
  let num_taxa_with_snp := List.length (dict_get snp snp_counter) in
  if total_in_lineage =? 0 then Raise ZeroDivisionError
  else Ok (Z.of_nat (100 * num_taxa_with_snp) # Pos.of_nat total_in_lineage).

(** [get_represented_and_defining_snps]; [members] is
    [lineages_dict[lineage]].  The loop over the keys of [snp_counter]
    appends to [defining] and [flagged] in iteration order. *)
Definition is_singleton (singletons : list mask_row) (snp : string) : bool :=
  existsb (fun s => String.eqb snp (snd (fst s))) singletons.

Fixpoint classify_snps (singletons : list mask_row) (snp_counter : dict string)
    (total_in_lineage : nat) (defining_cut_off represent_cut_off : Q)
    (todo : list string) : result (list string * list string) :=
  match todo with
  | [] => Ok ([], [])
  | snp :: todo' =>
      if is_singleton singletons snp
      then classify_snps singletons snp_counter total_in_lineage
             defining_cut_off represent_cut_off todo'
      else
        inclusion_pcent <- get_inclusion_pcent snp snp_counter total_in_lineage ;;
        ' (defining, flagged) <-
            classify_snps singletons snp_counter total_in_lineage
              defining_cut_off represent_cut_off todo' ;;
        Ok (if Qgtb inclusion_pcent defining_cut_off then snp :: defining else defining,
            if Qgtb inclusion_pcent represent_cut_off then snp :: flagged else flagged)
  end.

Definition get_represented_and_defining_snps (singletons : list mask_row)
    (snp_counter : dict string) (members : list SeqRecord)
    (defining_cut_off represent_cut_off : Q) : result (list string * list string) :=
  classify_snps singletons snp_counter (List.length members)
    defining_cut_off represent_cut_off (keys snp_counter).

(** ** Representative selector *)

Definition get_ids_in_list_of_records (records : list SeqRecord) : list string :=
  map id records.

(** The state of the selection loops: [(represented, taxa)]. *)
Definition sel_state : Type := (list string * list SeqRecord)%type.

(** Body of [for lowest_N_snp in snps_in_lowest_N]. *)
Definition credit (snp : string) (record : SeqRecord) (st : sel_state)
    (lowest_N_snp : string) : sel_state :=
  let '(represented, taxa) := st in
  let represented := represented ++ [snp] in
  let taxa_ids := get_ids_in_list_of_records taxa in
  if str_in (id record) taxa_ids then (represented, taxa)
  else (represented, taxa ++ [record]).

(** Body of [for record in lineages_dict[lineage]]. *)
Definition visit_record (snp lowest_N : string) (st : sel_state)
    (record : SeqRecord) : sel_state :=
  if String.eqb (id record) lowest_N
  then fold_left (credit snp record) (snps record) st
  else st.

(** Body of [for snp in snps]. *)
Definition visit_snp (members : list SeqRecord) (flagged : list string)
    (lowest_N : string) (st : sel_state) (snp : string) : sel_state :=
  let '(represented, taxa) := st in
  if str_in snp flagged && negb (str_in snp represented)
  then fold_left (visit_record snp lowest_N) members (represented ++ [snp], taxa)
  else st.

(** Body of [for snp_set in lineage_snps]; [records_sorted_by_N[0]] raises
    [IndexError] on an empty group. *)
Definition visit_snp_set (members : list SeqRecord) (flagged : list string)
    (st : sel_state) (entry : string * list (string * Q)) : result sel_state :=
  let '(snp_set, group) := entry in
  let records_sorted_by_N :=
    Py.sorted Z.leb (fun x : string * Q => Py.int_of_float (snd x)) group in
  match records_sorted_by_N with
  | [] => Raise IndexError
  | (lowest_N, _) :: _ =>
      Ok (fold_left (visit_snp members flagged lowest_N) (Py.split_semi snp_set) st)
  end.

(** [get_representative_taxa(lineage, lineage_snps, lineages_dict, flagged)]. *)
Definition get_representative_taxa (lineage_snps : dict (string * Q))
    (members : list SeqRecord) (flagged : list string) : result (list SeqRecord) :=
  st <- foldM (visit_snp_set members flagged) lineage_snps ([], []) ;;
  Ok (snd st).

(** [pad_taxa_to_5(taxa, lineages_dict, lineage)]. *)
Definition pad_step (taxa : list SeqRecord) (record : SeqRecord) : list SeqRecord :=
  if List.length taxa <? 3
  then if str_in (id record) (get_ids_in_list_of_records taxa)
       then taxa else taxa ++ [record]
  else taxa.

Definition pad_taxa_to_5 (taxa members : list SeqRecord) : list SeqRecord :=
  let pre_len := List.length taxa in
  if pre_len <? 3 then fold_left pad_step members taxa else taxa.

(** ** Per-lineage processing (the body of the loop of [get_all_snps]) *)

(** [set(l)] and [set.intersection] of a list of sets; the latter needs at least one
    argument ([TypeError] otherwise). *)
Definition set_of_list (l : list string) : list string := nodup string_dec l.

Definition set_intersection (sets : list (list string)) : result (list string) :=
  match sets with
  | [] => Raise TypeError
  | s :: others => Ok (filter (fun x => forallb (str_in x) others) s)
  end.

(** The loop over the records of the lineage that fills [snp_counter] and
    [lineage_snps]. *)
Definition index_record (st : dict string * dict (string * Q)) (record : SeqRecord)
    : dict string * dict (string * Q) :=
  let '(snp_counter, lineage_snps) := st in
  (fold_left (fun sc i => dict_append i (id record) sc) (snps record) snp_counter,
   dict_append (snp_string record) (id record, pcent_N record) lineage_snps).

Definition index_lineage (members : list SeqRecord) : dict string * dict (string * Q) :=
  fold_left index_record members ([], []).

(** A row of the representatives file, [(lineage, name)], and a row of the
    defining-SNPs file, [(lineage, defining_snps)]. *)
Definition rep_row : Type := (string * string)%type.
Definition defining_row : Type := (string * string)%type.

Definition reference_id : string := "Wuhan/WH04/2020".

Section Run.
(** The enumeration order of [list(a_set)]. *)
Variable list_of_set : list string -> list string.

Definition intersection_signature (lineage_snps : dict (string * Q))
    : result (list string) :=
  s <- set_intersection
         (map (fun x => set_of_list (Py.split_semi x)) (keys lineage_snps)) ;;
  Ok (list_of_set s).

(** The rows written to [outfile] survive an exception raised later in the
    body, so they are returned next to the result. *)
Definition process_lineage (defining_cut_off represent_cut_off : Q)
    (lineage : string) (members : list SeqRecord)
    : list rep_row * result (list mask_row * defining_row) :=
  let '(snp_counter, lineage_snps) := index_lineage members in
  let singletons := get_singleton_snps lineage snp_counter in
  match
    ' (defining, flagged) <-
        get_represented_and_defining_snps singletons snp_counter members
          defining_cut_off represent_cut_off ;;
    taxa <- get_representative_taxa lineage_snps members flagged ;;
    Ok (defining, pad_taxa_to_5 taxa members)
  with
  | Raise e => ([], Raise e)
  | Ok (defining, taxa) =>
      (map (fun record => (lineage, id record)) taxa,
       defining_snps <- intersection_signature lineage_snps ;;
       let defining_snps :=
         match defining_snps with
         | [] => defining
         | _ => defining_snps
         end in
       lineage_str <- snp_list_to_snp_string defining_snps ;;
       Ok (singletons, (lineage, lineage_str)))
  end.

(** [get_lineage_dict]: [lineage_file] is the list of [(taxon, lineage)]
    lines, a later line for the same taxon replacing an earlier one. *)
Fixpoint lineage_of (lineage_file : list (string * string)) (taxon : string)
    : option string :=
  match lineage_file with
  | [] => None
  | (k, v) :: rest =>
      match lineage_of rest taxon with
      | Some l => Some l
      | None => if String.eqb k taxon then Some v else None
      end
  end.

Definition add_to_lineage (lineage_file : list (string * string))
    (lineages_records : dict SeqRecord) (record : SeqRecord) : dict SeqRecord :=
  if String.eqb (id record) reference_id then lineages_records
  else match lineage_of lineage_file (id record) with
       | Some lineage => dict_append lineage record lineages_records
       | None => lineages_records
       end.

Definition get_lineage_dict (alignment : list SeqRecord)
    (lineage_file : list (string * string)) : dict SeqRecord :=
  let lineages_records := fold_left (add_to_lineage lineage_file) alignment [] in
  map (fun e : string * list SeqRecord =>
         (fst e, Py.sorted Qle_bool pcent_N (snd e)))
      lineages_records.

(** [get_reference], [add_N_annotation], [add_snps_annotation]. *)
Definition get_reference (alignment : list (string * string))
    : option (string * string) :=
  find (fun record => String.eqb (fst record) reference_id) alignment.

Definition add_N_annotation (alignment : list (string * string))
    : result (list (string * string * Q)) :=
  mapM (fun record : string * string =>
          pcent <- get_N_content (snd record) ;;
          Ok (fst record, snd record, pcent))
       alignment.

Definition annotate_snps (reference_seq : string) (record : string * string * Q)
    : result SeqRecord :=
  let '(name, residues, pcent) := record in
  snps <- find_snps reference_seq residues ;;
  snp_string <- snp_list_to_snp_string snps ;;
  Ok (mkSeqRecord name residues pcent snps snp_string).

Definition add_snps_annotation (alignment : list (string * string * Q))
    (reference_seq : string) : result (list SeqRecord) :=
  mapM (annotate_snps reference_seq) alignment.

(** The loop [for lineage in sorted(lineages_dict)], with the three
    accumulated tables as its state. *)
Fixpoint lineage_loop (defining_cut_off represent_cut_off : Q)
    (lineages_dict : dict SeqRecord) (todo : list string)
    (outfile : list rep_row) (to_mask : list mask_row)
    (lineage_defining_snps : list defining_row)
    : list rep_row * result (list mask_row * list defining_row) :=
  match todo with
  | [] => (outfile, Ok (to_mask, lineage_defining_snps))
  | lineage :: todo' =>
      let '(rows, r) :=
        process_lineage defining_cut_off represent_cut_off lineage
          (dict_get lineage lineages_dict) in
      match r with
      | Raise e => (outfile ++ rows, Raise e)
      | Ok (singletons, row) =>
          lineage_loop defining_cut_off represent_cut_off lineages_dict todo'
            (outfile ++ rows) (to_mask ++ singletons)
            (lineage_defining_snps ++ [row])
      end
  end.

(** [get_all_snps], from the alignment as read ([(id, seq)] pairs) and the
    lines of the lineage file; the first component is what was written to
    [outfile]. *)
Definition get_all_snps (aln : list (string * string))
    (lineage_file : list (string * string))
    (defining_cut_off represent_cut_off : Q)
    : list rep_row * result (list mask_row * list defining_row) :=
  match
    match get_reference aln with
    | None => Raise AttributeError
    | Some reference =>
        with_N <- add_N_annotation aln ;;
        add_snps_annotation with_N (snd reference)
    end
  with
  | Raise e => ([], Raise e)
  | Ok records =>
      let lineages_dict := get_lineage_dict records lineage_file in
      lineage_loop defining_cut_off represent_cut_off lineages_dict
        (Py.sorted String.leb (fun lineage => lineage) (keys lineages_dict))
        [] [] []
  end.
End Run.

(** ** Specification-side vocabulary *)

(** The percentage of residues equal to N, matched case-insensitively, over
    the length of the sequence, as an exact rational (used to state what
    [get_N_content] returns). *)
Definition is_N (c : ascii) : bool := Ascii.eqb c "N" || Ascii.eqb c "n".

Fixpoint count_if (p : ascii -> bool) (s : string) : nat :=
  match s with
  | EmptyString => 0
  | String c s' => (if p c then 1 else 0) + count_if p s'
  end.

Definition N_percentage (seq : string) : Q :=
  (100 * Z.of_nat (count_if is_N seq))%Z # Pos.of_nat (String.length seq).

(** The position of an SNP as the script reads it back: the sort key
    [int(x[:-2])] of [snp_list_to_snp_string]. *)
Definition snp_position (x : string) : result nat := Py.int (Py.drop_last2 x).

(** A reference without gap column, and a reference without [;] residue. *)
Definition no_gap (ref : string) : Prop := Py.count "-" ref = 0.
Definition no_semicolon (s : string) : Prop := Py.count ";" s = 0.

(** A record carries the annotations the script computes for it against the
    reference sequence. *)
Definition annotated (reference_seq : string) (r : SeqRecord) : Prop :=
  get_N_content (seq r) = Ok (pcent_N r) /\
  find_snps reference_seq (seq r) = Ok (snps r) /\
  snp_list_to_snp_string (snps r) = Ok (snp_string r).

(** The members of a lineage whose SNP list contains [snp], and the
    identifiers collected for [snp] over all SNP lists, one per occurrence. *)
Definition carriers (snp : string) (members : list SeqRecord) : list SeqRecord :=
  filter (fun r => str_in snp (snps r)) members.

Definition occurrences (snp : string) (members : list SeqRecord) : list string :=
  flat_map (fun r => map (fun _ => id r) (filter (String.eqb snp) (snps r))) members.

(** The SNP-signature group of a record within its lineage. *)
Definition signature_group (r : SeqRecord) (members : list SeqRecord) : list SeqRecord :=
  filter (fun x => String.eqb (snp_string x) (snp_string r)) members.

(** Two runs end the same way: both return, or both raise the same exception. *)
Definition same_outcome {A B : Type} (x : result A) (y : result B) : Prop :=
  match x, y with
  | Ok _, Ok _ => True
  | Raise e1, Raise e2 => e1 = e2
  | _, _ => False
  end.

(** The [(snp, id)] pairs in the order in which the loop over the records
    of a lineage appends them to [snp_counter]. *)
Definition snp_pairs (members : list SeqRecord) : list (string * string) :=
  flat_map (fun r => map (fun s => (s, id r)) (snps r)) members.

(** What one step of a selection loop may do to the state when it works for
    [snp] with the group's [lowest_N]: [represented] gains at most [snp],
    [taxa] gains at most records of the lineage named [lowest_N], and the
    identifiers of [taxa] stay distinct. *)
Definition extends (members : list SeqRecord) (snp lowest_N : string)
    (st st' : sel_state) : Prop :=
  incl (fst st) (fst st') /\
  (forall x, In x (fst st') -> In x (fst st) \/ x = snp) /\
  (exists added, snd st' = snd st ++ added /\
     Forall (fun r => In r members /\ id r = lowest_N) added) /\
  (NoDup (map id (snd st)) -> NoDup (map id (snd st'))).

(** Every SNP of the record has a position the sort of
    [snp_list_to_snp_string] can read. *)
Definition keyed (r : SeqRecord) : Prop :=
  forall x, In x (snps r) -> exists k, position_key x = Ok k.

(** * Proofs *)

(** ** The exception monad *)

Lemma bind_Ok {A B : Type} (m : result A) (k : A -> result B) (b : B) :
  bind m k = Ok b -> exists a, m = Ok a /\ k a = Ok b.
Proof.
  destruct m as [a | e]; simpl; intros H; [eauto | discriminate].
Qed.

Lemma mapM_Ok {A B : Type} (f : A -> result B) (l : list A) (bs : list B) :
  mapM f l = Ok bs -> Forall2 (fun a b => f a = Ok b) l bs.
Proof.
  revert bs; induction l as [| a l IH]; simpl; intros bs H.
  - injection H as <-. constructor.
  - apply bind_Ok in H as (b & Hb & H).
    apply bind_Ok in H as (bs' & Hbs & H).
    injection H as <-. constructor; auto.
Qed.

Lemma mapM_total {A B : Type} (f : A -> result B) (l : list A) :
  (forall a, In a l -> exists b, f a = Ok b) -> exists bs, mapM f l = Ok bs.
Proof.
  induction l as [| a l IH]; simpl; intros H.
  - eauto.
  - destruct (H a) as [b Hb]; [now left |].
    destruct IH as [bs Hbs]; [intros; apply H; now right |].
    rewrite Hb, Hbs. simpl. eauto.
Qed.

Lemma fold_left_invariant {A S : Type} (P : S -> Prop) (f : S -> A -> S) (l : list A) :
  forall s, P s -> (forall s a, In a l -> P s -> P (f s a)) -> P (fold_left f l s).
Proof.
  induction l as [| a l IH]; simpl; intros s Hs Hstep.
  - exact Hs.
  - apply IH; [apply Hstep; auto | intros; apply Hstep; auto].
Qed.

Lemma foldM_invariant {A S : Type} (P : S -> Prop) (f : S -> A -> result S) (l : list A) :
  forall s, P s ->
  (forall s a, In a l -> P s -> exists s', f s a = Ok s' /\ P s') ->
  exists s', foldM f l s = Ok s' /\ P s'.
Proof.
  induction l as [| a l IH]; simpl; intros s Hs Hstep.
  - eauto.
  - destruct (Hstep s a) as (s1 & E & H1); auto.
    rewrite E; simpl. apply IH; auto.
Qed.

(** ** Characters and strings *)

Lemma upper_is_N (c : ascii) : Ascii.eqb (Py.upper c) "N" = is_N c.
Proof.
  destruct c as [[] [] [] [] [] [] [] []]; reflexivity.
Qed.

Lemma count_upper_N (s : string) : Py.count "N" (Py.str_upper s) = count_if is_N s.
Proof.
  induction s as [| c s IH]; simpl; [reflexivity |].
  now rewrite upper_is_N, IH.
Qed.

(** ** N content *)

(** C8 (as amended): for a non-empty sequence [get_N_content] returns the
    exact percentage of residues equal to N, case-insensitively, over the
    sequence length; no rounding is applied. *)
Theorem get_N_content_exact (seq : string) :
  seq <> EmptyString ->
  exists p, get_N_content seq = Ok p /\ (p == N_percentage seq)%Q.
Proof.
  intros Hne. unfold get_N_content, N_percentage.
  destruct seq as [| c s]; [congruence |].
  cbn [String.length Nat.eqb].
  eexists; split; [reflexivity |].
  rewrite count_upper_N.
  unfold Qeq; cbn [Qnum Qden]. f_equal. lia.
Qed.

Lemma get_N_content_exact_witness :
  exists p, get_N_content "NAA" = Ok p /\ (p == N_percentage "NAA")%Q.
Proof.
  apply (get_N_content_exact "NAA"). discriminate.
Defined.

(** C8 (as stated) fails: on ["NAA"] the result is 100/3, which is not the
    percentage rounded to two decimal places (33.33). *)
Lemma get_N_content_not_rounded :
  ~ (forall seq, seq <> EmptyString ->
       exists p, get_N_content seq = Ok p /\ (p == Py.round2 (N_percentage seq))%Q).
Proof.
  intros H. destruct (H "NAA") as (p & Hp & Hq); [discriminate |].
  vm_compute in Hp. injection Hp as <-.
  vm_compute in Hq. discriminate.
Qed.

(** ** Classification by cut-off *)

Lemma Qgtb_true (a b : Q) : Qgtb a b = true <-> (b < a)%Q.
Proof.
  unfold Qgtb. rewrite negb_true_iff, <- not_true_iff_false, Qle_bool_iff.
  split; [apply Qnot_le_lt | apply Qlt_not_le].
Qed.

Lemma classify_snps_antitone singletons snp_counter total defining_cut_off
    (cutoff_a cutoff_b : Q) (todo : list string) :
  total <> 0 -> (cutoff_a < cutoff_b)%Q ->
  exists defining flagged_a flagged_b,
    classify_snps singletons snp_counter total defining_cut_off cutoff_a todo
      = Ok (defining, flagged_a) /\
    classify_snps singletons snp_counter total defining_cut_off cutoff_b todo
      = Ok (defining, flagged_b) /\
    incl flagged_b flagged_a.
Proof.
  intros Htot Hlt. induction todo as [| snp todo IH]; cbn [classify_snps].
  - exists [], [], []. repeat split; auto. apply incl_refl.
  - destruct IH as (d & fa & fb & Ea & Eb & Hincl).
    destruct (is_singleton singletons snp); [eauto 6 |].
    unfold get_inclusion_pcent.
    destruct (Nat.eqb_spec total 0) as [| _]; [contradiction |].
    set (p := (Z.of_nat (100 * List.length (dict_get snp snp_counter))
               # Pos.of_nat total)).
    rewrite Ea, Eb. cbn [bind].
    do 3 eexists. split; [reflexivity |]. split; [reflexivity |].
    destruct (Qgtb p cutoff_b) eqn:Gb.
    + apply Qgtb_true in Gb.
      assert (Ga : Qgtb p cutoff_a = true)
        by (apply Qgtb_true; eapply Qlt_trans; eauto).
      rewrite Ga. intros x [<- | Hx]; [now left | right; auto].
    + destruct (Qgtb _ cutoff_a); [apply incl_tl |]; exact Hincl.
Qed.

(** C7: for a fixed lineage, singleton list and occurrence index, every SNP
    flagged as representable under the larger cut-off is flagged under the
    smaller one. *)
Theorem representable_antitone_in_cutoff
    (singletons : list mask_row) (snp_counter : dict string)
    (members : list SeqRecord) (defining_cut_off cutoff_a cutoff_b : Q) :
  members <> [] -> (cutoff_a < cutoff_b)%Q ->
  exists defining_a flagged_a defining_b flagged_b,
    get_represented_and_defining_snps singletons snp_counter members
      defining_cut_off cutoff_a = Ok (defining_a, flagged_a) /\
    get_represented_and_defining_snps singletons snp_counter members
      defining_cut_off cutoff_b = Ok (defining_b, flagged_b) /\
    (forall snp, In snp flagged_b -> In snp flagged_a).
Proof.
  intros Hne Hlt. unfold get_represented_and_defining_snps.
  destruct (classify_snps_antitone singletons snp_counter (List.length members)
              defining_cut_off cutoff_a cutoff_b (keys snp_counter))
    as (d & fa & fb & Ea & Eb & Hincl); auto.
  - destruct members; [congruence | discriminate].
  - exists d, fa, d, fb. auto.
Qed.

Lemma representable_antitone_in_cutoff_witness :
  exists defining_a flagged_a defining_b flagged_b,
    get_represented_and_defining_snps [] [("4TA", ["M1"; "M2"])]
      [mkSeqRecord "M1" "ACGA" 0 ["4TA"] "4TA";
       mkSeqRecord "M2" "ACGA" 0 ["4TA"] "4TA";
       mkSeqRecord "M3" "ACGT" 0 [] ""]
      90 10 = Ok (defining_a, flagged_a) /\
    get_represented_and_defining_snps [] [("4TA", ["M1"; "M2"])]
      [mkSeqRecord "M1" "ACGA" 0 ["4TA"] "4TA";
       mkSeqRecord "M2" "ACGA" 0 ["4TA"] "4TA";
       mkSeqRecord "M3" "ACGT" 0 [] ""]
      90 70 = Ok (defining_b, flagged_b) /\
    (forall snp, In snp flagged_b -> In snp flagged_a).
Proof.
  apply representable_antitone_in_cutoff; [discriminate | reflexivity].
Defined.

(** ** Decimal numerals and the format of an SNP *)

Lemma to_uint_not_Nil (n : nat) : Nat.to_uint n <> Decimal.Nil.
Proof.
  intros H. assert (E : Nat.of_uint (Nat.to_uint n) = n) by apply Unsigned.of_to.
  rewrite H in E. cbn in E. subst n. discriminate.
Qed.

Lemma string_of_uint_empty (d : Decimal.uint) :
  NilEmpty.string_of_uint d = EmptyString -> d = Decimal.Nil.
Proof. destruct d; simpl; congruence. Qed.

Lemma str_of_int_nonempty (n : nat) : Py.str_of_int n <> EmptyString.
Proof.
  intros H. apply string_of_uint_empty in H. now apply to_uint_not_Nil in H.
Qed.

Lemma int_str_of_int (n : nat) : Py.int (Py.str_of_int n) = Ok n.
Proof.
  unfold Py.int. pose proof (str_of_int_nonempty n) as Hne.
  destruct (Py.str_of_int n) eqn:E; [congruence |].
  rewrite <- E. unfold Py.str_of_int.
  rewrite NilEmpty.usu. now rewrite Unsigned.of_to.
Qed.

Lemma count_append (c : ascii) (s t : string) :
  Py.count c (s ++ t) = Py.count c s + Py.count c t.
Proof.
  induction s as [| a s IH]; simpl; [reflexivity |]. rewrite IH. lia.
Qed.

Lemma string_of_uint_no_semicolon (d : Decimal.uint) :
  no_semicolon (NilEmpty.string_of_uint d).
Proof.
  unfold no_semicolon. induction d; simpl; auto.
Qed.

Lemma length_append (s t : string) :
  String.length (s ++ t) = String.length s + String.length t.
Proof.
  induction s as [| a s IH]; simpl; [reflexivity |]. now rewrite IH.
Qed.

Lemma substring_prefix (s t : string) :
  substring 0 (String.length s) (s ++ t) = s.
Proof.
  induction s as [| a s IH]; simpl.
  - now destruct t.
  - now rewrite IH.
Qed.

Lemma drop_last2_format (index : nat) (r m : ascii) :
  Py.drop_last2 (format_snp index r m) = Py.str_of_int index.
Proof.
  unfold Py.drop_last2, format_snp. rewrite length_append. simpl.
  replace (String.length (Py.str_of_int index) + 2 - 2)
    with (String.length (Py.str_of_int index)) by lia.
  apply substring_prefix.
Qed.

Lemma snp_position_format (index : nat) (r m : ascii) :
  snp_position (format_snp index r m) = Ok index.
Proof.
  unfold snp_position. rewrite drop_last2_format. apply int_str_of_int.
Qed.

Lemma format_snp_nonempty (index : nat) (r m : ascii) :
  format_snp index r m <> EmptyString.
Proof.
  unfold format_snp. destruct (Py.str_of_int index); discriminate.
Qed.

Lemma upper_semicolon (c : ascii) :
  Ascii.eqb (Py.upper c) ";" = Ascii.eqb c ";".
Proof.
  destruct c as [[] [] [] [] [] [] [] []]; reflexivity.
Qed.

Lemma format_snp_no_semicolon (index : nat) (r m : ascii) :
  Ascii.eqb r ";" = false -> Ascii.eqb m ";" = false ->
  no_semicolon (format_snp index r m).
Proof.
  intros Hr Hm. unfold no_semicolon, format_snp.
  rewrite count_append. unfold Py.str_of_int.
  rewrite string_of_uint_no_semicolon. simpl.
  now rewrite !upper_semicolon, Hr, Hm.
Qed.

Lemma unambiguous_not_semicolon (m : ascii) :
  unambiguous m = true -> Ascii.eqb m ";" = false.
Proof.
  destruct m as [[] [] [] [] [] [] [] []]; vm_compute; congruence.
Qed.

(** ** The SNP extractor *)

Lemma find_snps_from_total (ref : string) :
  forall index member, String.length ref <= String.length member ->
  exists l, find_snps_from index ref member = Ok l.
Proof.
  induction ref as [| r ref IH]; simpl; intros index member Hlen; [eauto |].
  destruct member as [| m member]; simpl in Hlen; [lia |].
  destruct (IH (if Ascii.eqb r "-" then index else S index) member) as [l E]; [lia |].
  rewrite E. cbn [bind]. destruct (_ && _); eauto.
Qed.

Lemma find_snps_from_shape (ref : string) :
  forall index member l, find_snps_from index ref member = Ok l ->
  Forall (fun x => x <> EmptyString /\ (no_semicolon ref -> no_semicolon x)) l.
Proof.
  induction ref as [| r ref IH]; simpl; intros index member l H.
  - injection H as <-. constructor.
  - destruct member as [| m member]; [discriminate |].
    apply bind_Ok in H as (rest & Hrest & H).
    apply IH in Hrest.
    assert (Hrest' : Forall (fun x => x <> EmptyString /\
              (no_semicolon (String r ref) -> no_semicolon x)) rest).
    { eapply Forall_impl; [| exact Hrest]. cbv beta.
      intros x [Hx Hs]; split; auto. intros Hr. apply Hs.
      unfold no_semicolon in *. simpl in Hr. lia. }
    destruct (negb (Ascii.eqb r m) && unambiguous m) eqn:C;
      injection H as <-; auto.
    constructor; auto. split; [apply format_snp_nonempty |].
    intros Hr. apply andb_prop in C as [_ C].
    apply format_snp_no_semicolon; [| now apply unambiguous_not_semicolon].
    unfold no_semicolon in Hr. simpl in Hr.
    destruct (Ascii.eqb r ";"); [discriminate | reflexivity].
Qed.

Lemma find_snps_from_positions (ref : string) :
  forall index member l, find_snps_from index ref member = Ok l ->
  exists ps, mapM snp_position l = Ok ps /\
    Forall (le index) ps /\ StronglySorted le ps /\
    (no_gap ref -> Forall (lt index) ps /\ StronglySorted lt ps).
Proof.
  induction ref as [| r ref IH]; simpl; intros index member l H.
  - injection H as <-. exists []. repeat split; constructor.
  - destruct member as [| m member]; [discriminate |].
    apply bind_Ok in H as (rest & Hrest & H).
    apply IH in Hrest as (ps & Eps & Hle & Hsorted & Hgap).
    set (index' := if Ascii.eqb r "-" then index else S index) in *.
    assert (Hstep : index <= index') by (subst index'; destruct (Ascii.eqb r "-"); lia).
    assert (Hle' : Forall (le index) ps)
      by (eapply Forall_impl; [| exact Hle]; cbv beta; intros; lia).
    assert (Hgap' : no_gap (String r ref) ->
                    index' = S index /\ Forall (lt index') ps /\ StronglySorted lt ps).
    { unfold no_gap; simpl. subst index'.
      destruct (Ascii.eqb r "-"); [discriminate |]. intros Hg.
      split; [reflexivity | apply Hgap; exact Hg]. }
    destruct (negb (Ascii.eqb r m) && unambiguous m); injection H as <-.
    + exists (index' :: ps). cbn [mapM]. rewrite snp_position_format, Eps. cbn [bind].
      split; [reflexivity |]. split; [constructor; auto |].
      split; [constructor; auto |].
      intros Hg. destruct (Hgap' Hg) as (E & Hlt & Hs).
      split; [| constructor; auto].
      constructor; [lia |]. eapply Forall_impl; [| exact Hlt]. cbv beta; intros; lia.
    + exists ps. split; [exact Eps |]. split; [exact Hle' |]. split; [exact Hsorted |].
      intros Hg. destruct (Hgap' Hg) as (E & Hlt & Hs). split; [| exact Hs].
      eapply Forall_impl; [| exact Hlt]. cbv beta; intros; lia.
Qed.

Lemma StronglySorted_lt_NoDup (ps : list nat) : StronglySorted lt ps -> NoDup ps.
Proof.
  induction 1 as [| p ps Hs IH Hall]; constructor; auto.
  intros Hin. rewrite Forall_forall in Hall. apply Hall in Hin. lia.
Qed.

(** C4 (as amended): for a reference and a member of equal length,
    [find_snps] returns a list whose positions never decrease, and no two
    events share a position when the reference has no gap column. *)
Theorem find_snps_positions (ref member : string) :
  String.length ref = String.length member ->
  exists l ps,
    find_snps ref member = Ok l /\ mapM snp_position l = Ok ps /\
    StronglySorted le ps /\ (no_gap ref -> NoDup ps).
Proof.
  intros Hlen. unfold find_snps.
  destruct (find_snps_from_total ref 0 member) as [l E]; [lia |].
  destruct (find_snps_from_positions ref 0 member l E) as (ps & Eps & _ & Hs & Hgap).
  exists l, ps. repeat split; auto.
  intros Hg. apply StronglySorted_lt_NoDup, Hgap, Hg.
Qed.

Lemma find_snps_positions_witness :
  exists l ps,
    find_snps "ACGT" "ATGA" = Ok l /\ mapM snp_position l = Ok ps /\
    StronglySorted le ps /\ (no_gap "ACGT" -> NoDup ps).
Proof.
  apply (find_snps_positions "ACGT" "ATGA"). reflexivity.
Defined.

(** C4 (as stated) fails: two inserted columns after reference position 1
    give two events at position 1. *)
Lemma find_snps_shared_position :
  ~ (forall ref member l ps,
       String.length ref = String.length member ->
       find_snps ref member = Ok l -> mapM snp_position l = Ok ps -> NoDup ps).
Proof.
  intros H.
  specialize (H "A--" "AGT" ["1-G"; "1-T"] [1; 1] eq_refl eq_refl eq_refl).
  inversion H as [| x xs Hin _]. apply Hin. now left.
Qed.

(** ** [sorted] *)

Section SortedFacts.
Context {A K : Type} (leb : K -> K -> bool) (key : A -> K).

Let R (a b : A) : Prop := leb (key a) (key b) = true.

Lemma insert_perm (x : A) (l : list A) : Permutation (Py.insert leb key x l) (x :: l).
Proof.
  induction l as [| y l IH]; simpl; [reflexivity |].
  destruct (leb (key x) (key y)); [reflexivity |].
  rewrite IH. apply perm_swap.
Qed.

Lemma sorted_perm (l : list A) : Permutation (Py.sorted leb key l) l.
Proof.
  induction l as [| x l IH]; simpl; [reflexivity |].
  rewrite insert_perm. now constructor.
Qed.

Lemma sorted_In (l : list A) (x : A) : In x (Py.sorted leb key l) <-> In x l.
Proof.
  split; apply Permutation_in; [| symmetry]; apply sorted_perm.
Qed.

Lemma sorted_of_Sorted (l : list A) : Sorted R l -> Py.sorted leb key l = l.
Proof.
  induction 1 as [| x l Hs IH Hhd]; simpl; [reflexivity |].
  rewrite IH. destruct Hhd as [| y l' Hxy]; simpl; [reflexivity |].
  unfold R in Hxy. now rewrite Hxy.
Qed.

Hypothesis leb_total : forall a b, leb a b = true \/ leb b a = true.
Hypothesis leb_trans : forall a b c, leb a b = true -> leb b c = true -> leb a c = true.

Lemma insert_StronglySorted (x : A) (l : list A) :
  StronglySorted R l -> StronglySorted R (Py.insert leb key x l).
Proof.
  induction 1 as [| y l Hs IH Hall]; simpl; [repeat constructor |].
  destruct (leb (key x) (key y)) eqn:E.
  - constructor; [constructor; auto |].
    constructor; [exact E |].
    eapply Forall_impl; [| exact Hall]. cbv beta. intros z Hz.
    unfold R in *. eauto.
  - constructor; [exact IH |].
    rewrite Forall_forall in *. intros z Hz.
    apply (Permutation_in _ (insert_perm x l)) in Hz as [<- | Hz]; auto.
    unfold R. destruct (leb_total (key x) (key y)); congruence.
Qed.

Lemma sorted_StronglySorted (l : list A) : StronglySorted R (Py.sorted leb key l).
Proof.
  induction l as [| x l IH]; simpl; [constructor |].
  now apply insert_StronglySorted.
Qed.
End SortedFacts.

Lemma StronglySorted_filter {A : Type} (R : A -> A -> Prop) (p : A -> bool) (l : list A) :
  StronglySorted R l -> StronglySorted R (filter p l).
Proof.
  induction 1 as [| x l Hs IH Hall]; simpl; [constructor |].
  destruct (p x); [| exact IH]. constructor; [exact IH |].
  rewrite Forall_forall in *. intros y Hy. apply filter_In in Hy as [Hy _]. auto.
Qed.

Lemma StronglySorted_map {A B : Type} (R : A -> A -> Prop) (S : B -> B -> Prop)
    (f : A -> B) (l : list A) :
  (forall a b, R a b -> S (f a) (f b)) ->
  StronglySorted R l -> StronglySorted S (map f l).
Proof.
  intros HRS. induction 1 as [| x l Hs IH Hall]; simpl; constructor; auto.
  rewrite Forall_forall in *. intros y Hy.
  apply in_map_iff in Hy as (a & <- & Ha). auto.
Qed.

(** ** [split] and [join] *)

Lemma split_semi_not_nil (s : string) : Py.split_semi s <> [].
Proof.
  induction s as [| c s IH]; simpl; [discriminate |].
  destruct (Ascii.eqb c ";"); [discriminate |].
  destruct (Py.split_semi s); [congruence | discriminate].
Qed.

Lemma split_semi_prefix (x s : string) :
  no_semicolon x ->
  Py.split_semi (x ++ String ";" s)%string = x :: Py.split_semi s.
Proof.
  unfold no_semicolon. induction x as [| c x IH]; simpl; intros H; [reflexivity |].
  destruct (Ascii.eqb c ";"); [discriminate |]. simpl in H.
  now rewrite IH.
Qed.

Lemma split_semi_single (x : string) : no_semicolon x -> Py.split_semi x = [x].
Proof.
  unfold no_semicolon. induction x as [| c x IH]; simpl; intros H; [reflexivity |].
  destruct (Ascii.eqb c ";"); [discriminate |]. simpl in H.
  now rewrite IH.
Qed.

Lemma split_semi_concat (l : list string) :
  l <> [] -> Forall no_semicolon l -> Py.split_semi (String.concat ";" l) = l.
Proof.
  induction l as [| x l IH]; [congruence |]. intros _ Hall.
  inversion Hall as [| ? ? Hx Hl]; subst.
  destruct l as [| y l]; [now apply split_semi_single |].
  change (String.concat ";" (x :: y :: l))
    with (x ++ String ";" (String.concat ";" (y :: l)))%string.
  rewrite split_semi_prefix by exact Hx.
  now rewrite IH.
Qed.

(** ** Annotated records *)

Lemma Forall2_map_snd_position_key (l : list string) (keyed : list (nat * string)) :
  Forall2 (fun a b => position_key a = Ok b) l keyed -> map snd keyed = l.
Proof.
  induction 1 as [| a b l keyed H _ IH]; simpl; [reflexivity |].
  unfold position_key in H. apply bind_Ok in H as (k & _ & H).
  injection H as <-. simpl. now rewrite IH.
Qed.

Lemma snp_string_perm (snp_list : list string) (s : string) :
  snp_list_to_snp_string snp_list = Ok s ->
  exists sl, Permutation sl snp_list /\ s = String.concat ";" sl.
Proof.
  unfold snp_list_to_snp_string. intros H.
  apply bind_Ok in H as (keyed & Hk & H). injection H as <-.
  eexists; split; [| reflexivity].
  apply mapM_Ok, Forall2_map_snd_position_key in Hk. rewrite <- Hk.
  apply Permutation_map, sorted_perm.
Qed.

Lemma snp_string_keys (snp_list : list string) (s : string) :
  snp_list_to_snp_string snp_list = Ok s ->
  forall x, In x snp_list -> exists k, position_key x = Ok k.
Proof.
  unfold snp_list_to_snp_string. intros H.
  apply bind_Ok in H as (keyed & Hk & _). apply mapM_Ok in Hk.
  induction Hk as [| a b l keyed Hab _ IH]; intros x [].
  - subst. eauto.
  - auto.
Qed.

Lemma annotated_shape (reference_seq : string) (r : SeqRecord) :
  annotated reference_seq r -> no_semicolon reference_seq ->
  Forall (fun x => x <> EmptyString /\ no_semicolon x) (snps r).
Proof.
  intros (_ & Hf & _) Hns. apply find_snps_from_shape in Hf.
  eapply Forall_impl; [| exact Hf]. cbv beta. intros x [? ?]; auto.
Qed.

Lemma annotated_split (reference_seq : string) (r : SeqRecord) :
  annotated reference_seq r -> no_semicolon reference_seq ->
  (snps r = [] /\ snp_string r = EmptyString) \/
  (snps r <> [] /\ Permutation (Py.split_semi (snp_string r)) (snps r)).
Proof.
  intros Ha Hns. pose proof (annotated_shape _ _ Ha Hns) as Hshape.
  destruct Ha as (_ & _ & Hs).
  apply snp_string_perm in Hs as (sl & Hperm & E).
  destruct (snps r) as [| x l] eqn:El.
  - left. apply Permutation_sym, Permutation_nil in Hperm. subst sl. auto.
  - right. split; [discriminate |].
    assert (Hsl : sl <> []).
    { intros ->. apply Permutation_nil in Hperm. discriminate. }
    rewrite E, split_semi_concat; auto.
    rewrite Forall_forall in *. intros y Hy. apply Hshape.
    eapply Permutation_in; eauto.
Qed.

(** ** Insertion-ordered dictionaries *)

Section DictFacts.
Context {V : Type}.
Implicit Types (d : dict V) (k : string) (v : V).

Lemma dict_get_append k k' v d :
  dict_get k (dict_append k' v d) =
  if String.eqb k k' then dict_get k d ++ [v] else dict_get k d.
Proof.
  induction d as [| [k0 vs] d IH]; simpl.
  - now destruct (String.eqb k k').
  - destruct (String.eqb_spec k' k0) as [-> | Hne]; simpl.
    + now destruct (String.eqb k k0).
    + rewrite IH. destruct (String.eqb_spec k k') as [-> | _]; [| reflexivity].
      destruct (String.eqb_spec k' k0); [contradiction | reflexivity].
Qed.

Lemma keys_append_In k k' v d :
  In k (keys (dict_append k' v d)) <-> k = k' \/ In k (keys d).
Proof.
  unfold keys. induction d as [| [k0 vs] d IH]; simpl.
  - intuition.
  - destruct (String.eqb_spec k' k0) as [-> | Hne]; simpl.
    + intuition.
    + rewrite IH. intuition.
Qed.

Lemma keys_append_NoDup k v d : NoDup (keys d) -> NoDup (keys (dict_append k v d)).
Proof.
  unfold keys. induction d as [| [k0 vs] d IH]; simpl; intros H.
  - repeat constructor. intros [].
  - inversion H as [| ? ? Hnin Hd]; subst.
    destruct (String.eqb_spec k k0) as [-> | Hne]; simpl; [exact H |].
    constructor; [| auto].
    intros Hin. apply (keys_append_In k0 k v d) in Hin as [-> | Hin]; auto.
Qed.

Lemma dict_get_In k (g : list V) d :
  NoDup (keys d) -> In (k, g) d -> dict_get k d = g.
Proof.
  unfold keys. induction d as [| [k0 vs] d IH]; simpl; intros Hnd Hin; [easy |].
  inversion Hnd as [| ? ? Hnin Hd]; subst.
  destruct Hin as [E | Hin].
  - injection E as -> ->. now rewrite String.eqb_refl.
  - destruct (String.eqb_spec k k0) as [-> | _]; [| auto].
    exfalso. apply Hnin. apply in_map_iff. now exists (k0, g).
Qed.

Lemma In_dict_get k d : dict_get k d <> [] -> In (k, dict_get k d) d.
Proof.
  induction d as [| [k0 vs] d IH]; simpl; [congruence |].
  destruct (String.eqb_spec k k0) as [-> | _]; auto.
Qed.

Lemma append_values_nonempty k v d :
  Forall (fun e => snd e <> []) d -> Forall (fun e => snd e <> []) (dict_append k v d).
Proof.
  induction 1 as [| [k0 vs] d H0 Hd IH]; simpl.
  - repeat constructor. discriminate.
  - destruct (String.eqb k k0); constructor; auto. simpl.
    destruct vs; discriminate.
Qed.

Lemma append_values_Forall (P : V -> Prop) k v d :
  P v -> Forall (fun e => Forall P (snd e)) d ->
  Forall (fun e => Forall P (snd e)) (dict_append k v d).
Proof.
  intros Hv. induction 1 as [| [k0 vs] d H0 Hd IH]; simpl.
  - repeat constructor. exact Hv.
  - destruct (String.eqb k k0); constructor; auto. simpl in *.
    apply Forall_app; auto.
Qed.

Lemma dict_get_Forall (P : V -> Prop) k d :
  Forall (fun e => Forall P (snd e)) d -> Forall P (dict_get k d).
Proof.
  induction 1 as [| [k0 vs] d H0 _ IH]; simpl; [constructor |].
  destruct (String.eqb k k0); auto.
Qed.

(** A dictionary filled by one [append] per element of a list. *)
Context {X : Type} (kf : X -> string) (vf : X -> V).

Let build (xs : list X) d : dict V :=
  fold_left (fun d x => dict_append (kf x) (vf x) d) xs d.

Lemma build_get k xs : forall d,
  dict_get k (build xs d) =
  dict_get k d ++ map vf (filter (fun x => String.eqb k (kf x)) xs).
Proof.
  unfold build. induction xs as [| x xs IH]; simpl; intros d.
  - now rewrite app_nil_r.
  - rewrite IH, dict_get_append.
    destruct (String.eqb k (kf x)); simpl; [now rewrite <- app_assoc | reflexivity].
Qed.

Lemma build_keys k xs : forall d,
  In k (keys (build xs d)) <-> In k (keys d) \/ exists x, In x xs /\ kf x = k.
Proof.
  unfold build. induction xs as [| x xs IH]; simpl; intros d.
  - split; [auto | intros [H | (x & [] & _)]; exact H].
  - rewrite IH, keys_append_In. split.
    + intros [[-> | H] | (y & Hy & E)]; eauto.
    + intros [H | (y & [-> | Hy] & E)]; eauto.
Qed.

Lemma build_NoDup xs : forall d, NoDup (keys d) -> NoDup (keys (build xs d)).
Proof.
  unfold build. induction xs as [| x xs IH]; simpl; intros d H; [exact H |].
  apply IH, keys_append_NoDup, H.
Qed.

Lemma build_nonempty xs : forall d,
  Forall (fun e => snd e <> []) d -> Forall (fun e => snd e <> []) (build xs d).
Proof.
  unfold build. induction xs as [| x xs IH]; simpl; intros d H; [exact H |].
  apply IH, append_values_nonempty, H.
Qed.
End DictFacts.

(** ** The two indexes of a lineage *)

Lemma fold_left_flat_map {A B S : Type} (f : S -> B -> S) (g : A -> list B) (l : list A) :
  forall s, fold_left f (flat_map g l) s = fold_left (fun s a => fold_left f (g a) s) l s.
Proof.
  induction l as [| a l IH]; simpl; intros s; [reflexivity |].
  now rewrite fold_left_app, IH.
Qed.

Lemma fold_left_map {A B S : Type} (f : S -> B -> S) (g : A -> B) (l : list A) :
  forall s, fold_left f (map g l) s = fold_left (fun s a => f s (g a)) l s.
Proof.
  induction l as [| a l IH]; simpl; intros s; [reflexivity | apply IH].
Qed.

Lemma index_lineage_from (members : list SeqRecord) :
  forall snp_counter lineage_snps,
  fold_left index_record members (snp_counter, lineage_snps) =
  (fold_left (fun d p => dict_append (fst p) (snd p) d) (snp_pairs members) snp_counter,
   fold_left (fun d r => dict_append (snp_string r) (id r, pcent_N r) d)
     members lineage_snps).
Proof.
  induction members as [| r members IH]; simpl; intros sc ls; [reflexivity |].
  rewrite IH. unfold snp_pairs at 2. simpl. rewrite fold_left_app.
  fold (snp_pairs members). now rewrite fold_left_map.
Qed.

Lemma index_lineage_eq (members : list SeqRecord) :
  index_lineage members =
  (fold_left (fun d p => dict_append (fst p) (snd p) d) (snp_pairs members) [],
   fold_left (fun d r => dict_append (snp_string r) (id r, pcent_N r) d) members []).
Proof. apply index_lineage_from. Qed.

Lemma snp_counter_get (snp : string) (members : list SeqRecord) :
  dict_get snp (fst (index_lineage members)) = occurrences snp members.
Proof.
  rewrite index_lineage_eq. cbn [fst]. rewrite build_get. simpl.
  unfold snp_pairs, occurrences.
  induction members as [| r members IH]; simpl; [reflexivity |].
  rewrite filter_app, map_app, IH. f_equal.
  induction (snps r) as [| s l IHl]; simpl; [reflexivity |].
  destruct (String.eqb snp s); simpl; now rewrite IHl.
Qed.

Lemma snp_counter_NoDup (members : list SeqRecord) :
  NoDup (keys (fst (index_lineage members))).
Proof.
  rewrite index_lineage_eq. cbn [fst]. apply build_NoDup. constructor.
Qed.

Lemma snp_counter_keys (snp : string) (members : list SeqRecord) :
  In snp (keys (fst (index_lineage members))) <->
  exists r, In r members /\ In snp (snps r).
Proof.
  rewrite index_lineage_eq. cbn [fst]. rewrite build_keys. simpl.
  unfold snp_pairs. split.
  - intros [[] | ([s i] & Hin & <-)].
    apply in_flat_map in Hin as (r & Hr & Hin).
    apply in_map_iff in Hin as (s' & E & Hs). injection E as -> _. eauto.
  - intros (r & Hr & Hs). right. exists (snp, id r). split; [| reflexivity].
    apply in_flat_map. exists r. split; [exact Hr |].
    apply in_map_iff. eauto.
Qed.

Lemma lineage_snps_get (k : string) (members : list SeqRecord) :
  dict_get k (snd (index_lineage members)) =
  map (fun r => (id r, pcent_N r))
    (filter (fun r => String.eqb k (snp_string r)) members).
Proof.
  rewrite index_lineage_eq. cbn [snd]. now rewrite build_get.
Qed.

Lemma lineage_snps_entry (k : string) (g : list (string * Q)) (members : list SeqRecord) :
  In (k, g) (snd (index_lineage members)) ->
  g <> [] /\
  g = map (fun r => (id r, pcent_N r))
        (filter (fun r => String.eqb k (snp_string r)) members).
Proof.
  intros Hin. split.
  - assert (H : Forall (fun e : string * list (string * Q) => snd e <> [])
                  (snd (index_lineage members))).
    { rewrite index_lineage_eq. cbn [snd]. apply build_nonempty. constructor. }
    rewrite Forall_forall in H. apply (H _ Hin).
  - rewrite <- lineage_snps_get. symmetry. apply dict_get_In; [| exact Hin].
    rewrite index_lineage_eq. cbn [snd]. apply build_NoDup. constructor.
Qed.

Lemma lineage_snps_keys (members : list SeqRecord) (r : SeqRecord) :
  In r members -> In (snp_string r) (keys (snd (index_lineage members))).
Proof.
  intros Hr. rewrite index_lineage_eq. cbn [snd]. apply build_keys. eauto.
Qed.

(** ** Singletons *)

Lemma get_singleton_snps_In (lineage : string) (snp_counter : dict string)
    (snp taxon : string) :
  In (lineage, snp, taxon) (get_singleton_snps lineage snp_counter) <->
  In (snp, [taxon]) snp_counter.
Proof.
  induction snp_counter as [| [s ids] d IH]; simpl; [reflexivity |].
  destruct ids as [| t [| t' ids]]; simpl; rewrite IH.
  - split; [auto | intros [H | H]; [discriminate | exact H]].
  - split; (intros [H | H]; [left; congruence | right; exact H]).
  - split; [auto | intros [H | H]; [discriminate | exact H]].
Qed.

Lemma singleton_iff_occurrences (lineage : string) (members : list SeqRecord)
    (snp taxon : string) :
  In (lineage, snp, taxon) (get_singleton_snps lineage (fst (index_lineage members))) <->
  occurrences snp members = [taxon].
Proof.
  rewrite get_singleton_snps_In, <- snp_counter_get. split.
  - apply dict_get_In, snp_counter_NoDup.
  - intros E. rewrite <- E. apply In_dict_get. rewrite E. discriminate.
Qed.

Lemma filter_eqb_NoDup (snp : string) (l : list string) :
  NoDup l -> filter (String.eqb snp) l = if str_in snp l then [snp] else [].
Proof.
  unfold str_in. induction 1 as [| x l Hnin Hnd IH]; simpl; [reflexivity |].
  destruct (String.eqb_spec snp x) as [<- | Hne]; simpl; [| exact IH].
  rewrite IH. destruct (existsb (String.eqb snp) l) eqn:E; [| reflexivity].
  apply existsb_exists in E as (y & Hy & Eq). apply String.eqb_eq in Eq. subst y.
  contradiction.
Qed.

Lemma occurrences_NoDup (snp : string) (members : list SeqRecord) :
  (forall r, In r members -> NoDup (snps r)) ->
  occurrences snp members = map id (carriers snp members).
Proof.
  unfold occurrences, carriers.
  induction members as [| r members IH]; simpl; intros Hnd; [reflexivity |].
  rewrite IH by auto. rewrite filter_eqb_NoDup by auto.
  now destruct (str_in snp (snps r)).
Qed.

Lemma carriers_le_occurrences (snp : string) (members : list SeqRecord) :
  List.length (carriers snp members) <= List.length (occurrences snp members).
Proof.
  unfold occurrences, carriers.
  induction members as [| r members IH]; simpl; [lia |].
  rewrite length_app, length_map.
  destruct (str_in snp (snps r)) eqn:E; simpl; [| lia].
  apply existsb_exists in E as (y & Hy & Eq).
  assert (Hin : In y (filter (String.eqb snp) (snps r))) by (apply filter_In; auto).
  destruct (filter (String.eqb snp) (snps r)); [destruct Hin | simpl; lia].
Qed.

(** C3 (as amended): an SNP is classified singleton, with the row's taxon,
    exactly when it occurs once over all the SNP lists of the lineage,
    repeats within one list counted; when no member's list repeats an event
    this is exactly when one member carries it; and an SNP carried by two or
    more members is never a singleton. *)
Theorem singleton_classification (lineage : string) (members : list SeqRecord)
    (snp taxon : string) :
  let singletons := get_singleton_snps lineage (fst (index_lineage members)) in
  (In (lineage, snp, taxon) singletons <-> occurrences snp members = [taxon]) /\
  ((forall r, In r members -> NoDup (snps r)) ->
   (In (lineage, snp, taxon) singletons <->
    exists r, carriers snp members = [r] /\ id r = taxon)) /\
  (2 <= List.length (carriers snp members) -> ~ In (lineage, snp, taxon) singletons).
Proof.
  cbv zeta. split; [apply singleton_iff_occurrences |]. split.
  - intros Hnd. rewrite singleton_iff_occurrences, occurrences_NoDup by exact Hnd.
    destruct (carriers snp members) as [| r [| r' l]]; simpl; split.
    + discriminate.
    + intros (r & E & _). discriminate.
    + intros E. injection E as <-. eauto.
    + intros (r0 & E & <-). now injection E as <-.
    + discriminate.
    + intros (r0 & E & _). discriminate.
  - intros Hlen Hin. apply singleton_iff_occurrences in Hin.
    pose proof (carriers_le_occurrences snp members) as Hle.
    rewrite Hin in Hle. simpl in Hle. lia.
Qed.

Lemma singleton_classification_witness :
  In ("X", "2CT", "M3")
     (get_singleton_snps "X"
        (fst (index_lineage
                [mkSeqRecord "M1" "ACGA" (0 # 4) ["4TA"] "4TA";
                 mkSeqRecord "M2" "ACGA" (0 # 4) ["4TA"] "4TA";
                 mkSeqRecord "M3" "ATGT" (0 # 4) ["2CT"] "2CT"]))) /\
  ~ In ("X", "4TA", "M1")
       (get_singleton_snps "X"
          (fst (index_lineage
                  [mkSeqRecord "M1" "ACGA" (0 # 4) ["4TA"] "4TA";
                   mkSeqRecord "M2" "ACGA" (0 # 4) ["4TA"] "4TA";
                   mkSeqRecord "M3" "ATGT" (0 # 4) ["2CT"] "2CT"]))).
Proof.
  split.
  - apply (proj1 (singleton_classification "X"
             [mkSeqRecord "M1" "ACGA" (0 # 4) ["4TA"] "4TA";
              mkSeqRecord "M2" "ACGA" (0 # 4) ["4TA"] "4TA";
              mkSeqRecord "M3" "ATGT" (0 # 4) ["2CT"] "2CT"] "2CT" "M3")).
    reflexivity.
  - apply (proj2 (proj2 (singleton_classification "X"
             [mkSeqRecord "M1" "ACGA" (0 # 4) ["4TA"] "4TA";
              mkSeqRecord "M2" "ACGA" (0 # 4) ["4TA"] "4TA";
              mkSeqRecord "M3" "ATGT" (0 # 4) ["2CT"] "2CT"] "4TA" "M1"))).
    apply le_n.
Defined.

(** C3 (as stated) fails: against the reference ["A--"] the member ["AGG"]
    has the SNP list [1-G; 1-G]; the SNP is carried by exactly one member of
    the lineage and is not classified singleton. *)
Lemma singleton_missed_when_repeated :
  ~ (forall reference_seq lineage members snp,
       Forall (annotated reference_seq) members ->
       ((exists taxon,
           In (lineage, snp, taxon)
              (get_singleton_snps lineage (fst (index_lineage members)))) <->
        List.length (carriers snp members) = 1)).
Proof.
  intros H.
  specialize (H "A--" "X" [mkSeqRecord "M1" "AGG" (0 # 3) ["1-G"; "1-G"] "1-G;1-G"] "1-G").
  destruct H as [_ H].
  - repeat constructor.
  - destruct H as [taxon Hin]; [reflexivity |]. vm_compute in Hin. exact Hin.
Qed.

(** ** The selection loops *)

Lemma str_in_iff (x : string) (l : list string) : str_in x l = true <-> In x l.
Proof.
  unfold str_in. rewrite existsb_exists. split.
  - intros (y & Hy & E). apply String.eqb_eq in E. now subst.
  - intros H. exists x. split; [exact H | apply String.eqb_refl].
Qed.

Lemma str_in_false (x : string) (l : list string) : str_in x l = false <-> ~ In x l.
Proof.
  rewrite <- str_in_iff. destruct (str_in x l); split; congruence.
Qed.

Lemma NoDup_snoc {A : Type} (l : list A) (x : A) :
  NoDup l -> ~ In x l -> NoDup (l ++ [x]).
Proof.
  intros Hl Hx. apply NoDup_rev in Hl.
  rewrite <- (rev_involutive (l ++ [x])). apply NoDup_rev.
  rewrite rev_app_distr. simpl. constructor; [| exact Hl].
  now rewrite <- in_rev.
Qed.

Lemma extends_refl members snp lowest_N st : extends members snp lowest_N st st.
Proof.
  repeat split; auto using incl_refl.
  exists []. now rewrite app_nil_r.
Qed.

Lemma extends_trans members snp lowest_N st1 st2 st3 :
  extends members snp lowest_N st1 st2 -> extends members snp lowest_N st2 st3 ->
  extends members snp lowest_N st1 st3.
Proof.
  intros (Hi1 & Hr1 & (a1 & E1 & F1) & N1) (Hi2 & Hr2 & (a2 & E2 & F2) & N2).
  repeat split; auto.
  - eapply incl_tran; eauto.
  - intros x Hx. apply Hr2 in Hx as [Hx | Hx]; auto.
  - exists (a1 ++ a2). rewrite E2, E1, app_assoc. split; [reflexivity |].
    apply Forall_app; auto.
Qed.

Lemma extends_taxa_incl members snp lowest_N st st' :
  extends members snp lowest_N st st' -> incl (snd st) members -> incl (snd st') members.
Proof.
  intros (_ & _ & (added & E & F) & _) Hincl. rewrite E.
  apply incl_app; [exact Hincl |].
  rewrite Forall_forall in F. intros r Hr. now apply F.
Qed.

Lemma extends_taxa_mono members snp lowest_N st st' :
  extends members snp lowest_N st st' -> incl (snd st) (snd st').
Proof.
  intros (_ & _ & (added & E & _) & _). rewrite E. now apply incl_appl.
Qed.

Lemma fold_left_extends {A : Type} members snp lowest_N
    (f : sel_state -> A -> sel_state) (l : list A) :
  (forall st a, In a l -> extends members snp lowest_N st (f st a)) ->
  forall st, extends members snp lowest_N st (fold_left f l st).
Proof.
  induction l as [| a l IH]; simpl; intros Hf st; [apply extends_refl |].
  eapply extends_trans; [apply Hf; now left | apply IH; auto].
Qed.

Lemma credit_extends members snp record st x :
  In record members ->
  extends members snp (id record) st (credit snp record st x) /\
  In (id record) (map id (snd (credit snp record st x))).
Proof.
  intros Hrec. destruct st as [represented taxa]. unfold credit.
  unfold get_ids_in_list_of_records.
  destruct (str_in (id record) (map id taxa)) eqn:E; unfold extends; cbn [fst snd].
  - apply str_in_iff in E. split; [| exact E]. repeat split; auto.
    + now apply incl_appl.
    + intros y Hy. apply in_app_or in Hy as [Hy | [<- | []]]; auto.
    + exists []. now rewrite app_nil_r.
  - apply str_in_false in E. split.
    + repeat split.
      * now apply incl_appl.
      * intros y Hy. apply in_app_or in Hy as [Hy | [<- | []]]; auto.
      * exists [record]. split; [reflexivity |]. repeat constructor; auto.
      * intros Hnd. rewrite map_app. simpl. now apply NoDup_snoc.
    + rewrite map_app. apply in_or_app. right. now left.
Qed.

Lemma visit_record_extends members snp lowest_N st record :
  In record members ->
  extends members snp lowest_N st (visit_record snp lowest_N st record).
Proof.
  intros Hrec. unfold visit_record.
  destruct (String.eqb_spec (id record) lowest_N) as [<- | _]; [| apply extends_refl].
  apply fold_left_extends. intros st' x _. now apply credit_extends.
Qed.

Lemma visit_record_adds members snp st record :
  In record members -> snps record <> [] ->
  In (id record) (map id (snd (visit_record snp (id record) st record))).
Proof.
  intros Hrec Hne. unfold visit_record. rewrite String.eqb_refl.
  destruct (snps record) as [| x l]; [congruence |]. simpl.
  pose proof (credit_extends members snp record st x Hrec) as [_ Hin].
  assert (Hmono : extends members snp (id record) (credit snp record st x)
            (fold_left (credit snp record) l (credit snp record st x))).
  { apply fold_left_extends. intros st' y _. now apply credit_extends. }
  apply extends_taxa_mono in Hmono.
  apply in_map_iff in Hin as (r & E & Hr). apply in_map_iff. eauto.
Qed.

Lemma fold_visit_record_adds members snp lowest_N (h : SeqRecord) (l : list SeqRecord) :
  incl l members -> In h l -> id h = lowest_N -> snps h <> [] ->
  forall st, In (id h) (map id (snd (fold_left (visit_record snp lowest_N) l st))).
Proof.
  intros Hincl Hh Hid Hne. subst lowest_N.
  induction l as [| r l IH]; [destruct Hh |]. simpl. intros st.
  assert (Hr : In r members) by (apply Hincl; now left).
  assert (Hl : incl l members) by (intros y Hy; apply Hincl; now right).
  destruct Hh as [-> | Hh]; [| now apply IH].
  pose proof (visit_record_adds members snp st h Hr Hne) as Hin.
  assert (Hmono : extends members snp (id h) (visit_record snp (id h) st h)
            (fold_left (visit_record snp (id h)) l (visit_record snp (id h) st h))).
  { apply fold_left_extends. intros st' y Hy. apply visit_record_extends. auto. }
  apply extends_taxa_mono in Hmono.
  apply in_map_iff in Hin as (r & E & Hr'). apply in_map_iff. eauto.
Qed.

Lemma visit_snp_extends members flagged lowest_N st snp :
  extends members snp lowest_N st (visit_snp members flagged lowest_N st snp).
Proof.
  destruct st as [represented taxa]. unfold visit_snp.
  destruct (str_in snp flagged && negb (str_in snp represented));
    [| apply extends_refl].
  eapply extends_trans with (st2 := (represented ++ [snp], taxa)).
  - repeat split; cbn [fst snd]; auto.
    + now apply incl_appl.
    + intros y Hy. apply in_app_or in Hy as [Hy | [<- | []]]; auto.
    + exists []. now rewrite app_nil_r.
  - apply fold_left_extends. intros st' r Hr. now apply visit_record_extends.
Qed.

Lemma visit_snp_represents members flagged lowest_N st snp :
  In snp flagged -> In snp (fst (visit_snp members flagged lowest_N st snp)).
Proof.
  intros Hf. destruct st as [represented taxa]. unfold visit_snp.
  apply str_in_iff in Hf. rewrite Hf. simpl.
  destruct (str_in snp represented) eqn:E; simpl.
  - now apply str_in_iff.
  - pose proof (fold_left_extends members snp lowest_N (visit_record snp lowest_N)
                  members (fun st' r Hr => visit_record_extends members snp lowest_N st' r Hr)
                  (represented ++ [snp], taxa)) as (Hincl & _).
    apply Hincl. cbn [fst]. apply in_or_app. right. now left.
Qed.

Lemma visit_snp_adds members flagged lowest_N st snp (h : SeqRecord) :
  In snp flagged -> ~ In snp (fst st) ->
  In h members -> id h = lowest_N -> snps h <> [] ->
  In (id h) (map id (snd (visit_snp members flagged lowest_N st snp))).
Proof.
  intros Hf Hnr Hh Hid Hne. destruct st as [represented taxa]. unfold visit_snp.
  apply str_in_iff in Hf. apply str_in_false in Hnr. cbn [fst] in Hnr.
  rewrite Hf, Hnr. simpl.
  apply (fold_visit_record_adds members); auto using incl_refl.
Qed.

(** ** The selector on the indexed lineage *)

Lemma sorted_group_head (g : list (string * Q)) :
  g <> [] ->
  exists lowest_N pc rest,
    Py.sorted Z.leb (fun x : string * Q => Py.int_of_float (snd x)) g
      = (lowest_N, pc) :: rest /\ In (lowest_N, pc) g.
Proof.
  intros Hne.
  pose proof (sorted_perm Z.leb (fun x : string * Q => Py.int_of_float (snd x)) g) as Hp.
  destruct (Py.sorted _ _ g) as [| [lowest_N pc] rest] eqn:E.
  - apply Permutation_nil in Hp. congruence.
  - exists lowest_N, pc, rest. split; [reflexivity |].
    eapply Permutation_in; [exact Hp | now left].
Qed.

Lemma selection_fold (Inv : sel_state -> Prop) (members : list SeqRecord)
    (flagged : list string) :
  Inv ([], []) ->
  (forall k g lowest_N pc rest st snp,
      In (k, g) (snd (index_lineage members)) ->
      Py.sorted Z.leb (fun x : string * Q => Py.int_of_float (snd x)) g
        = (lowest_N, pc) :: rest ->
      In snp (Py.split_semi k) -> Inv st ->
      Inv (visit_snp members flagged lowest_N st snp)) ->
  exists st,
    foldM (visit_snp_set members flagged) (snd (index_lineage members)) ([], []) = Ok st /\
    Inv st.
Proof.
  intros H0 Hstep. apply foldM_invariant; [exact H0 |].
  intros st [k g] Hin Hst. unfold visit_snp_set.
  destruct (lineage_snps_entry k g members Hin) as [Hne _].
  destruct (sorted_group_head g Hne) as (lowest_N & pc & rest & E & Hlow).
  rewrite E. eexists; split; [reflexivity |].
  apply fold_left_invariant; [exact Hst |].
  intros st' snp Hsnp Hst'. eapply Hstep; eauto.
Qed.

Lemma get_representative_taxa_distinct (members : list SeqRecord) (flagged : list string) :
  exists taxa,
    get_representative_taxa (snd (index_lineage members)) members flagged = Ok taxa /\
    NoDup (map id taxa) /\ incl taxa members.
Proof.
  unfold get_representative_taxa.
  destruct (selection_fold
              (fun st => NoDup (map id (snd st)) /\ incl (snd st) members)
              members flagged) as (st & E & Hnd & Hincl).
  - split; [constructor | intros x []].
  - intros k g lowest_N pc rest st snp _ _ _ [Hnd Hincl].
    pose proof (visit_snp_extends members flagged lowest_N st snp) as Hext.
    split; [now apply Hext | eapply extends_taxa_incl; eauto].
  - rewrite E. cbn [bind]. eauto.
Qed.

(** ** Padding *)

Lemma pad_step_spec (taxa : list SeqRecord) (record : SeqRecord) :
  NoDup (map id taxa) ->
  let taxa' := pad_step taxa record in
  NoDup (map id taxa') /\ incl (map id taxa) (map id taxa') /\
  List.length taxa <= List.length taxa' /\
  (3 <= List.length taxa' \/ In (id record) (map id taxa')).
Proof.
  intros Hnd. unfold pad_step, get_ids_in_list_of_records.
  destruct (Nat.ltb_spec (List.length taxa) 3) as [Hlt | Hge].
  - destruct (str_in (id record) (map id taxa)) eqn:E.
    + apply str_in_iff in E. repeat split; auto using incl_refl.
    + apply str_in_false in E. rewrite map_app, length_app. simpl.
      repeat split.
      * now apply NoDup_snoc.
      * now apply incl_appl.
      * lia.
      * right. apply in_or_app. right. now left.
  - repeat split; auto using incl_refl.
Qed.

Lemma fold_pad_step_spec (members : list SeqRecord) :
  forall taxa, NoDup (map id taxa) ->
  let taxa' := fold_left pad_step members taxa in
  NoDup (map id taxa') /\ incl (map id taxa) (map id taxa') /\
  List.length taxa <= List.length taxa' /\
  (3 <= List.length taxa' \/ incl (map id members) (map id taxa')).
Proof.
  induction members as [| r members IH]; simpl; intros taxa Hnd.
  - repeat split; auto using incl_refl. right. intros x [].
  - destruct (pad_step_spec taxa r Hnd) as (Hnd1 & Hi1 & Hl1 & H1).
    destruct (IH (pad_step taxa r) Hnd1) as (Hnd2 & Hi2 & Hl2 & H2).
    repeat split; auto.
    + eapply incl_tran; eauto.
    + lia.
    + destruct H2 as [H2 | H2]; [now left |].
      destruct H1 as [H1 | H1]; [left; lia |].
      right. intros x [<- | Hx]; auto.
Qed.

(** C5: with the identifiers of the lineage distinct, the padded list of
    representatives has at least [min 3 (number of members)] entries and no
    identifier twice. *)
Theorem representatives_floor_and_distinct (members : list SeqRecord)
    (flagged : list string) :
  NoDup (map id members) ->
  exists taxa,
    get_representative_taxa (snd (index_lineage members)) members flagged = Ok taxa /\
    Nat.min 3 (List.length members) <= List.length (pad_taxa_to_5 taxa members) /\
    NoDup (map id (pad_taxa_to_5 taxa members)).
Proof.
  intros Hids.
  destruct (get_representative_taxa_distinct members flagged) as (taxa & E & Hnd & _).
  exists taxa. split; [exact E |]. unfold pad_taxa_to_5.
  destruct (Nat.ltb_spec (List.length taxa) 3) as [Hlt | Hge]; [| split; [lia | exact Hnd]].
  destruct (fold_pad_step_spec members taxa Hnd) as (Hnd' & _ & _ & [H3 | Hall]).
  - split; [lia | exact Hnd'].
  - split; [| exact Hnd'].
    apply (NoDup_incl_length Hids) in Hall. rewrite !length_map in Hall. lia.
Qed.

Lemma representatives_floor_and_distinct_witness :
  exists taxa,
    get_representative_taxa
      (snd (index_lineage [mkSeqRecord "M1" "ACGA" 0 ["4TA"] "4TA";
                           mkSeqRecord "M2" "ACGA" 0 ["4TA"] "4TA"]))
      [mkSeqRecord "M1" "ACGA" 0 ["4TA"] "4TA";
       mkSeqRecord "M2" "ACGA" 0 ["4TA"] "4TA"] ["4TA"] = Ok taxa /\
    Nat.min 3 2 <=
      List.length (pad_taxa_to_5 taxa
                     [mkSeqRecord "M1" "ACGA" 0 ["4TA"] "4TA";
                      mkSeqRecord "M2" "ACGA" 0 ["4TA"] "4TA"]) /\
    NoDup (map id (pad_taxa_to_5 taxa
                     [mkSeqRecord "M1" "ACGA" 0 ["4TA"] "4TA";
                      mkSeqRecord "M2" "ACGA" 0 ["4TA"] "4TA"])).
Proof.
  apply (representatives_floor_and_distinct
           [mkSeqRecord "M1" "ACGA" 0 ["4TA"] "4TA";
            mkSeqRecord "M2" "ACGA" 0 ["4TA"] "4TA"] ["4TA"]).
  repeat constructor; simpl; intuition discriminate.
Defined.

(** ** Lowest N content *)

Lemma int_of_float_floor (x : Q) :
  (0 <= Qnum x)%Z -> Py.int_of_float x = Qfloor x.
Proof.
  intros H. destruct x as [n d]. unfold Py.int_of_float, Qfloor. cbn [Qnum Qden] in *.
  apply Z.quot_div_nonneg; lia.
Qed.

Lemma int_of_float_neg (x : Q) :
  (Qnum x <= 0)%Z -> Py.int_of_float x = (- Qfloor (- x))%Z.
Proof.
  intros H. destruct x as [n d]. unfold Py.int_of_float, Qfloor, Qopp.
  cbn [Qnum Qden] in *.
  rewrite <- (Z.opp_involutive n) at 1. rewrite Z.quot_opp_l by lia.
  f_equal. apply Z.quot_div_nonneg; lia.
Qed.

Lemma int_of_float_mono (a b : Q) :
  (a <= b)%Q -> (Py.int_of_float a <= Py.int_of_float b)%Z.
Proof.
  intros Hab.
  destruct (Z.le_gt_cases 0 (Qnum a)) as [Ha | Ha];
    destruct (Z.le_gt_cases 0 (Qnum b)) as [Hb | Hb].
  - rewrite !int_of_float_floor by assumption. now apply Qfloor_resp_le.
  - exfalso. unfold Qle in Hab. nia.
  - rewrite (int_of_float_neg a) by lia. rewrite (int_of_float_floor b) by assumption.
    assert (0 <= Qfloor (- a))%Z.
    { change 0%Z with (Qfloor 0). apply Qfloor_resp_le.
      unfold Qle, Qopp. cbn [Qnum Qden]. lia. }
    assert (0 <= Qfloor b)%Z.
    { change 0%Z with (Qfloor 0). apply Qfloor_resp_le.
      unfold Qle. cbn [Qnum Qden]. lia. }
    lia.
  - rewrite !int_of_float_neg by lia.
    apply Z.opp_le_mono. rewrite !Z.opp_involutive.
    apply Qfloor_resp_le. now apply Qopp_le_compat.
Qed.

Lemma Qle_bool_total (a b : Q) : Qle_bool a b = true \/ Qle_bool b a = true.
Proof.
  rewrite !Qle_bool_iff. destruct (Qlt_le_dec a b) as [H | H]; auto.
  left. now apply Qlt_le_weak.
Qed.

Lemma Qle_bool_trans (a b c : Q) :
  Qle_bool a b = true -> Qle_bool b c = true -> Qle_bool a c = true.
Proof. rewrite !Qle_bool_iff. apply Qle_trans. Qed.

Lemma StronglySorted_impl {A : Type} (R S : A -> A -> Prop) (l : list A) :
  (forall a b, R a b -> S a b) -> StronglySorted R l -> StronglySorted S l.
Proof.
  intros HRS. induction 1 as [| x l Hs IH Hall]; constructor; auto.
  eapply Forall_impl; [| exact Hall]. auto.
Qed.

Lemma members_sorted_by_N (raw : list SeqRecord) :
  StronglySorted (fun a b => (pcent_N a <= pcent_N b)%Q) (Py.sorted Qle_bool pcent_N raw).
Proof.
  eapply StronglySorted_impl;
    [| apply sorted_StronglySorted; [apply Qle_bool_total | apply Qle_bool_trans]].
  cbv beta. intros a b H. now apply Qle_bool_iff.
Qed.

Lemma NoDup_id_eq (members : list SeqRecord) (a b : SeqRecord) :
  NoDup (map id members) -> In a members -> In b members -> id a = id b -> a = b.
Proof.
  induction members as [| r members IH]; simpl; intros Hnd Ha Hb E; [destruct Ha |].
  inversion Hnd as [| ? ? Hnin Hnd']; subst.
  destruct Ha as [-> | Ha], Hb as [-> | Hb]; auto.
  - exfalso. apply Hnin. rewrite E. now apply in_map.
  - exfalso. apply Hnin. rewrite <- E. now apply in_map.
Qed.

Lemma group_head_is_lowest (members : list SeqRecord) (k : string)
    (g : list (string * Q)) (lowest_N : string) (pc : Q) (rest : list (string * Q)) :
  StronglySorted (fun a b => (pcent_N a <= pcent_N b)%Q) members ->
  In (k, g) (snd (index_lineage members)) ->
  Py.sorted Z.leb (fun x : string * Q => Py.int_of_float (snd x)) g
    = (lowest_N, pc) :: rest ->
  exists h after,
    filter (fun r => String.eqb k (snp_string r)) members = h :: after /\
    id h = lowest_N /\ Forall (fun x => (pcent_N h <= pcent_N x)%Q) after.
Proof.
  intros Hsorted Hin E.
  destruct (lineage_snps_entry k g members Hin) as [Hne Hg].
  assert (Hf : StronglySorted (fun a b => (pcent_N a <= pcent_N b)%Q)
                 (filter (fun r => String.eqb k (snp_string r)) members))
    by now apply StronglySorted_filter.
  rewrite sorted_of_Sorted in E.
  - destruct (filter (fun r => String.eqb k (snp_string r)) members) as [| h after].
    { rewrite Hg in Hne. simpl in Hne. congruence. }
    rewrite Hg in E. simpl in E. injection E as E1 _ _.
    exists h, after. split; [reflexivity |]. split; [exact E1 |].
    now inversion Hf.
  - apply StronglySorted_Sorted. subst g.
    eapply StronglySorted_map; [| exact Hf]. cbv beta.
    intros a b Hab. cbn [snd]. apply Z.leb_le. now apply int_of_float_mono.
Qed.

(** C6: with the lineage in the order [get_lineage_dict] gives it (sorted by
    N content) and its identifiers distinct, every record the selector
    returns has the smallest N content of its SNP-signature group, the
    first such record in the order of the group. *)
Theorem representative_has_lowest_N (raw : list SeqRecord) (flagged : list string) :
  NoDup (map id raw) ->
  let members := Py.sorted Qle_bool pcent_N raw in
  exists taxa,
    get_representative_taxa (snd (index_lineage members)) members flagged = Ok taxa /\
    forall r, In r taxa ->
      exists before after,
        signature_group r members = before ++ r :: after /\
        Forall (fun x => (pcent_N r < pcent_N x)%Q) before /\
        Forall (fun x => (pcent_N r <= pcent_N x)%Q) after.
Proof.
  intros Hraw members.
  assert (Hids : NoDup (map id members)).
  { eapply Permutation_NoDup; [| exact Hraw].
    apply Permutation_map, Permutation_sym, sorted_perm. }
  pose proof (members_sorted_by_N raw) as Hsorted. fold members in Hsorted.
  unfold get_representative_taxa.
  destruct (selection_fold
              (fun st => Forall (fun r => In r members /\ exists after,
                   signature_group r members = r :: after /\
                   Forall (fun x => (pcent_N r <= pcent_N x)%Q) after) (snd st))
              members flagged) as (st & E & Hst).
  - constructor.
  - intros k g lowest_N pc rest st snp Hin Hhead _ Hst.
    destruct (group_head_is_lowest members k g lowest_N pc rest Hsorted Hin Hhead)
      as (h & after & Hf & Hid & Hafter).
    assert (Hh : In h (filter (fun r => String.eqb k (snp_string r)) members))
      by (rewrite Hf; now left).
    apply filter_In in Hh as [Hh Hk]. apply String.eqb_eq in Hk.
    destruct (visit_snp_extends members flagged lowest_N st snp)
      as (_ & _ & (added & -> & Hadded) & _).
    apply Forall_app. split; [exact Hst |].
    eapply Forall_impl; [| exact Hadded]. cbv beta. intros r [Hr Hrid].
    assert (r = h) by (apply (NoDup_id_eq members); congruence). subst r.
    split; [exact Hh |]. exists after. split; [| exact Hafter].
    unfold signature_group. rewrite <- Hf. apply filter_ext.
    intros x. rewrite <- Hk. apply String.eqb_sym.
  - rewrite E. cbn [bind]. eexists; split; [reflexivity |].
    intros r Hr. rewrite Forall_forall in Hst.
    destruct (Hst r Hr) as (_ & after & Hg & Hafter).
    exists [], after. split; [exact Hg |]. split; [constructor | exact Hafter].
Qed.

Lemma representative_has_lowest_N_witness :
  let members :=
    Py.sorted Qle_bool pcent_N
      [mkSeqRecord "M1" "ANGA" 25 ["4TA"] "4TA";
       mkSeqRecord "M2" "ACGA" 0 ["4TA"] "4TA"] in
  exists taxa,
    get_representative_taxa (snd (index_lineage members)) members ["4TA"] = Ok taxa /\
    forall r, In r taxa ->
      exists before after,
        signature_group r members = before ++ r :: after /\
        Forall (fun x => (pcent_N r < pcent_N x)%Q) before /\
        Forall (fun x => (pcent_N r <= pcent_N x)%Q) after.
Proof.
  apply (representative_has_lowest_N
           [mkSeqRecord "M1" "ANGA" 25 ["4TA"] "4TA";
            mkSeqRecord "M2" "ACGA" 0 ["4TA"] "4TA"] ["4TA"]).
  repeat constructor; simpl; intuition discriminate.
Defined.

(** ** Coverage of the flagged SNPs *)

Lemma fold_left_establish {A S : Type} (M : S -> Prop) (f : S -> A -> S)
    (l : list A) (a : A) :
  In a l -> (forall s, M (f s a)) -> (forall s b, M s -> M (f s b)) ->
  forall s, M (fold_left f l s).
Proof.
  intros Hin Ha Hmono. induction l as [| b l IH]; [destruct Hin |]. simpl. intros s.
  destruct Hin as [-> | Hin]; [| now apply IH].
  apply fold_left_invariant; auto.
Qed.

Lemma foldM_establish {A S : Type} (M : S -> Prop) (f : S -> A -> result S)
    (l : list A) (a : A) :
  In a l -> (forall s s', f s a = Ok s' -> M s') ->
  (forall s b s', f s b = Ok s' -> M s -> M s') ->
  forall s sf, foldM f l s = Ok sf -> M sf.
Proof.
  intros Hin Ha Hmono. induction l as [| b l IH]; [destruct Hin |]. simpl.
  intros s sf H. apply bind_Ok in H as (s1 & E1 & H).
  destruct Hin as [-> | Hin]; [| eapply IH; eauto].
  apply Ha in E1. clear IH Ha. revert s1 E1 H.
  induction l as [| c l IH]; simpl; intros s1 E1 H.
  - now injection H as <-.
  - apply bind_Ok in H as (s2 & E2 & H). eapply IH; [| exact H]. eauto.
Qed.

Lemma visit_snp_new members flagged lowest_N st snp (h : SeqRecord) :
  In snp (fst (visit_snp members flagged lowest_N st snp)) -> ~ In snp (fst st) ->
  In h members -> id h = lowest_N -> snps h <> [] ->
  In (id h) (map id (snd (visit_snp members flagged lowest_N st snp))).
Proof.
  intros Hin Hnr. apply visit_snp_adds; [| exact Hnr].
  destruct st as [represented taxa]. unfold visit_snp in Hin.
  destruct (str_in snp flagged) eqn:E; [now apply str_in_iff |].
  simpl in Hin. contradiction.
Qed.

Lemma visit_snp_set_mono members flagged st entry st' (snp : string) :
  visit_snp_set members flagged st entry = Ok st' ->
  In snp (fst st) -> In snp (fst st').
Proof.
  destruct entry as [k g]. unfold visit_snp_set.
  destruct (Py.sorted _ _ g) as [| [lowest_N pc] rest]; [discriminate |].
  intros H Hin. injection H as <-.
  apply fold_left_invariant with (P := fun st => In snp (fst st)); [exact Hin |].
  intros st0 x _ H0. now apply (visit_snp_extends members flagged lowest_N st0 x).
Qed.

Lemma visit_snp_set_represents members flagged st k g st' (snp : string) :
  visit_snp_set members flagged st (k, g) = Ok st' ->
  In snp (Py.split_semi k) -> In snp flagged -> In snp (fst st').
Proof.
  unfold visit_snp_set.
  destruct (Py.sorted _ _ g) as [| [lowest_N pc] rest]; [discriminate |].
  intros H Hsplit Hf. injection H as <-.
  apply fold_left_establish with (M := fun st => In snp (fst st)) (a := snp).
  - exact Hsplit.
  - intros s. now apply visit_snp_represents.
  - intros s b Hs. now apply (visit_snp_extends members flagged lowest_N s b).
Qed.

Lemma group_lowest_member (members : list SeqRecord) (k : string)
    (g : list (string * Q)) (lowest_N : string) (pc : Q) (rest : list (string * Q)) :
  In (k, g) (snd (index_lineage members)) ->
  Py.sorted Z.leb (fun x : string * Q => Py.int_of_float (snd x)) g
    = (lowest_N, pc) :: rest ->
  exists h, In h members /\ id h = lowest_N /\ snp_string h = k.
Proof.
  intros Hin E. destruct (lineage_snps_entry k g members Hin) as [_ Hg].
  assert (Hlow : In (lowest_N, pc) g).
  { apply (sorted_In Z.leb (fun x : string * Q => Py.int_of_float (snd x))).
    rewrite E. now left. }
  rewrite Hg in Hlow. apply in_map_iff in Hlow as (h & Eh & Hh).
  apply filter_In in Hh as [Hh Hk]. apply String.eqb_eq in Hk.
  injection Eh as Eid _. eauto.
Qed.

(** C1: with the lineage annotated against a reference without [;], and its
    identifiers distinct, every flagged SNP found in the SNP list of some
    member is in the SNP list of a record returned by the selector (before
    padding). *)
Theorem representatives_cover_flagged (reference_seq : string)
    (members : list SeqRecord) (flagged : list string) :
  no_semicolon reference_seq ->
  Forall (annotated reference_seq) members ->
  NoDup (map id members) ->
  exists taxa,
    get_representative_taxa (snd (index_lineage members)) members flagged = Ok taxa /\
    forall snp, In snp flagged ->
      (exists r, In r members /\ In snp (snps r)) ->
      exists r, In r taxa /\ In snp (snps r).
Proof.
  intros Hns Hann Hids. rewrite Forall_forall in Hann.
  unfold get_representative_taxa.
  destruct (selection_fold
              (fun st => incl (snd st) members /\
                 forall s, In s (fst st) ->
                   (exists r, In r members /\ In s (snps r)) ->
                   exists r, In r (snd st) /\ In s (snps r))
              members flagged) as (st & E & Hincl & Hcov).
  - split; [intros x [] | intros s []].
  - intros k g lowest_N pc rest st snp Hin Hhead Hsplit [Hincl Hcov].
    pose proof (visit_snp_extends members flagged lowest_N st snp) as Hext.
    pose proof (extends_taxa_incl _ _ _ _ _ Hext Hincl) as Hincl'.
    pose proof (extends_taxa_mono _ _ _ _ _ Hext) as Hmono.
    split; [exact Hincl' |].
    intros s Hs Hreal.
    destruct (in_dec string_dec s (fst st)) as [Hold | Hnew].
    { destruct (Hcov s Hold Hreal) as (r & Hr & Hsr). eauto. }
    assert (s = snp) by (destruct Hext as (_ & Hrep & _); destruct (Hrep s Hs); tauto).
    subst s.
    destruct (group_lowest_member members k g lowest_N pc rest Hin Hhead)
      as (h & Hh & Hid & Hk).
    assert (Hsh : In snp (snps h)).
    { destruct Hreal as (r0 & Hr0 & Hs0).
      pose proof (annotated_shape _ _ (Hann r0 Hr0) Hns) as Hshape.
      rewrite Forall_forall in Hshape. destruct (Hshape snp Hs0) as [Hne _].
      destruct (annotated_split _ _ (Hann h Hh) Hns) as [[_ Hempty] | [_ Hperm]].
      - rewrite <- Hk, Hempty in Hsplit. simpl in Hsplit.
        destruct Hsplit as [<- | []]. congruence.
      - rewrite <- Hk in Hsplit. eapply Permutation_in; eauto. }
    assert (Hne : snps h <> []) by (intros Hnil; rewrite Hnil in Hsh; destruct Hsh).
    pose proof (visit_snp_new members flagged lowest_N st snp h Hs Hnew Hh Hid Hne) as Hidin.
    apply in_map_iff in Hidin as (r' & Er & Hr').
    assert (r' = h) by (apply (NoDup_id_eq members); auto).
    subst r'. eauto.
  - rewrite E. cbn [bind]. eexists; split; [reflexivity |].
    intros snp Hf Hreal. apply Hcov; [| exact Hreal].
    destruct Hreal as (r0 & Hr0 & Hs0).
    pose proof (lineage_snps_keys members r0 Hr0) as Hkey.
    apply in_map_iff in Hkey as ([k g] & Ek & Hentry). simpl in Ek. subst k.
    eapply foldM_establish with (M := fun st => In snp (fst st)); [exact Hentry | | | exact E].
    + intros s s' Hv. eapply visit_snp_set_represents; [exact Hv | | exact Hf].
      destruct (annotated_split _ _ (Hann r0 Hr0) Hns) as [[Hnil _] | [_ Hperm]].
      * rewrite Hnil in Hs0. destruct Hs0.
      * eapply Permutation_in; [apply Permutation_sym; exact Hperm | exact Hs0].
    + intros s b s' Hv. eapply visit_snp_set_mono; eauto.
Qed.

Lemma representatives_cover_flagged_witness :
  exists taxa,
    get_representative_taxa
      (snd (index_lineage
              [mkSeqRecord "M1" "ACGA" (0 # 4) ["4TA"] "4TA";
               mkSeqRecord "M2" "ACGA" (0 # 4) ["4TA"] "4TA";
               mkSeqRecord "M3" "ATGT" (0 # 4) ["2CT"] "2CT"]))
      [mkSeqRecord "M1" "ACGA" (0 # 4) ["4TA"] "4TA";
       mkSeqRecord "M2" "ACGA" (0 # 4) ["4TA"] "4TA";
       mkSeqRecord "M3" "ATGT" (0 # 4) ["2CT"] "2CT"] ["4TA"] = Ok taxa /\
    forall snp, In snp ["4TA"] ->
      (exists r, In r [mkSeqRecord "M1" "ACGA" (0 # 4) ["4TA"] "4TA";
                       mkSeqRecord "M2" "ACGA" (0 # 4) ["4TA"] "4TA";
                       mkSeqRecord "M3" "ATGT" (0 # 4) ["2CT"] "2CT"] /\
                 In snp (snps r)) ->
      exists r, In r taxa /\ In snp (snps r).
Proof.
  apply (representatives_cover_flagged "ACGT").
  - reflexivity.
  - repeat constructor.
  - repeat constructor; simpl; intuition discriminate.
Defined.

(** ** A lineage identical to the reference *)

Lemma lineage_snps_all_empty (members : list SeqRecord) :
  (forall r, In r members -> snp_string r = EmptyString) ->
  forall g,
  fold_left (fun d r => dict_append (snp_string r) (id r, pcent_N r) d) members
    [(EmptyString, g)] =
  [(EmptyString, g ++ map (fun r => (id r, pcent_N r)) members)].
Proof.
  induction members as [| r members IH]; simpl; intros Hall g.
  - now rewrite app_nil_r.
  - rewrite (Hall r) by now left. simpl. rewrite IH by auto.
    now rewrite <- app_assoc.
Qed.

Lemma index_lineage_all_empty (members : list SeqRecord) :
  members <> [] ->
  (forall r, In r members -> snps r = [] /\ snp_string r = EmptyString) ->
  index_lineage members =
  ([], [(EmptyString, map (fun r => (id r, pcent_N r)) members)]).
Proof.
  intros Hne Hall. rewrite index_lineage_eq. f_equal.
  - replace (snp_pairs members) with (@nil (string * string)); [reflexivity |].
    unfold snp_pairs. clear Hne. induction members as [| r members IH]; simpl; [reflexivity |].
    rewrite (proj1 (Hall r (or_introl eq_refl))). simpl. apply IH.
    intros; apply Hall; now right.
  - destruct members as [| r members]; [congruence |]. simpl.
    rewrite (proj2 (Hall r (or_introl eq_refl))). simpl.
    apply lineage_snps_all_empty. intros; apply Hall; now right.
Qed.

Section SetOrder.
Variable list_of_set : list string -> list string.
Hypothesis list_of_set_perm : forall s, Permutation (list_of_set s) s.

(** C10: for a non-empty lineage whose members all have an empty SNP list,
    the body of the lineage loop raises [ValueError]: the signature
    intersection is the one-element set of the empty string, and its sort
    key [int(x[:-2])] raises. *)
Theorem unchanged_lineage_raises (reference_seq : string)
    (defining_cut_off represent_cut_off : Q) (lineage : string)
    (members : list SeqRecord) :
  members <> [] ->
  Forall (annotated reference_seq) members ->
  (forall r, In r members -> snps r = []) ->
  snd (process_lineage list_of_set defining_cut_off represent_cut_off lineage members)
    = Raise ValueError.
Proof.
  intros Hne Hann Hnil. rewrite Forall_forall in Hann.
  assert (Hall : forall r, In r members -> snps r = [] /\ snp_string r = EmptyString).
  { intros r Hr. split; [auto |]. destruct (Hann r Hr) as (_ & _ & Hs).
    rewrite (Hnil r Hr) in Hs. change (Ok EmptyString = Ok (snp_string r)) in Hs.
    congruence. }
  unfold process_lineage. rewrite (index_lineage_all_empty members Hne Hall).
  cbv beta iota.
  unfold get_represented_and_defining_snps, keys. cbn [map classify_snps bind].
  unfold get_representative_taxa. cbn [foldM visit_snp_set].
  destruct (sorted_group_head (map (fun r => (id r, pcent_N r)) members))
    as (lowest_N & pc & rest & E & _).
  { destruct members; [congruence | discriminate]. }
  rewrite E. cbn [bind Py.split_semi fold_left visit_snp str_in existsb andb snd].
  unfold intersection_signature, keys, set_intersection.
  cbn [map fst Py.split_semi set_of_list nodup filter forallb bind].
  destruct (in_dec string_dec EmptyString []) as [[] | _].
  cbn [filter forallb].
  pose proof (list_of_set_perm [EmptyString]) as Hp.
  apply Permutation_sym, Permutation_length_1_inv in Hp. rewrite Hp.
  reflexivity.
Qed.
End SetOrder.

Lemma unchanged_lineage_raises_witness :
  snd (process_lineage (fun s => s) 90 10 "A"
         [mkSeqRecord "M4" "ACGT" (0 # 4) [] EmptyString])
    = Raise ValueError.
Proof.
  apply (unchanged_lineage_raises (fun s => s) (fun s => Permutation_refl s) "ACGT").
  - discriminate.
  - repeat constructor.
  - intros r [<- | []]. reflexivity.
Defined.

(** ** The cut-offs and the outcome of a run *)

Lemma classify_snps_incl singletons snp_counter total defining_cut_off represent_cut_off
    (todo defining flagged : list string) :
  classify_snps singletons snp_counter total defining_cut_off represent_cut_off todo
    = Ok (defining, flagged) ->
  incl defining todo /\ incl flagged todo.
Proof.
  revert defining flagged.
  induction todo as [| snp todo IH]; cbn [classify_snps]; intros d f H.
  - injection H as <- <-. split; apply incl_refl.
  - destruct (is_singleton singletons snp).
    + destruct (IH d f H). split; now apply incl_tl.
    + apply bind_Ok in H as (p & _ & H). apply bind_Ok in H as ([d' f'] & E & H).
      destruct (IH d' f' E) as [Hd Hf]. injection H as <- <-.
      split.
      * destruct (Qgtb p defining_cut_off); [apply incl_cons; [now left |] |];
          now apply incl_tl.
      * destruct (Qgtb p represent_cut_off); [apply incl_cons; [now left |] |];
          now apply incl_tl.
Qed.

Lemma classify_snps_total singletons snp_counter total defining_cut_off represent_cut_off
    (todo : list string) :
  total <> 0 \/ todo = [] ->
  exists defining flagged,
    classify_snps singletons snp_counter total defining_cut_off represent_cut_off todo
      = Ok (defining, flagged).
Proof.
  intros [Htot | ->]; [| cbn; eauto].
  induction todo as [| snp todo IH]; cbn [classify_snps]; [eauto |].
  destruct IH as (d & f & E). destruct (is_singleton singletons snp); [eauto |].
  unfold get_inclusion_pcent. destruct (Nat.eqb_spec total 0); [contradiction |].
  rewrite E. cbn [bind]. eauto.
Qed.

Lemma classification_total (lineage : string) (members : list SeqRecord)
    (defining_cut_off represent_cut_off : Q) :
  exists defining flagged,
    get_represented_and_defining_snps
      (get_singleton_snps lineage (fst (index_lineage members)))
      (fst (index_lineage members)) members defining_cut_off represent_cut_off
    = Ok (defining, flagged) /\
    incl defining (keys (fst (index_lineage members))).
Proof.
  unfold get_represented_and_defining_snps.
  destruct (classify_snps_total
              (get_singleton_snps lineage (fst (index_lineage members)))
              (fst (index_lineage members)) (List.length members)
              defining_cut_off represent_cut_off
              (keys (fst (index_lineage members)))) as (d & f & E).
  - destruct members; [right; reflexivity | left; discriminate].
  - exists d, f. split; [exact E |]. now apply classify_snps_incl in E.
Qed.

Lemma snp_list_to_snp_string_total (l : list string) :
  (forall x, In x l -> exists k, position_key x = Ok k) ->
  exists s, snp_list_to_snp_string l = Ok s.
Proof.
  intros H. unfold snp_list_to_snp_string.
  destruct (mapM_total position_key l H) as [keyed_l E]. rewrite E. cbn [bind]. eauto.
Qed.

Lemma process_lineage_outcome (list_of_set : list string -> list string)
    (d1 r1 d2 r2 : Q) (lineage : string) (members : list SeqRecord) :
  Forall keyed members ->
  same_outcome (snd (process_lineage list_of_set d1 r1 lineage members))
               (snd (process_lineage list_of_set d2 r2 lineage members)).
Proof.
  intros Hkeyed. rewrite Forall_forall in Hkeyed. unfold process_lineage.
  destruct (classification_total lineage members d1 r1) as (def1 & fl1 & E1 & Hd1).
  destruct (classification_total lineage members d2 r2) as (def2 & fl2 & E2 & Hd2).
  destruct (get_representative_taxa_distinct members fl1) as (taxa1 & T1 & _).
  destruct (get_representative_taxa_distinct members fl2) as (taxa2 & T2 & _).
  destruct (index_lineage members) as [snp_counter lineage_snps] eqn:Ei.
  cbn [fst snd] in *. rewrite E1, E2. cbn [bind]. rewrite T1, T2. cbn [bind snd].
  destruct (intersection_signature list_of_set lineage_snps) as [l | e];
    cbn [bind]; [| reflexivity].
  assert (Hfallback : forall defining, incl defining (keys snp_counter) ->
            exists s, snp_list_to_snp_string defining = Ok s).
  { intros defining Hincl. apply snp_list_to_snp_string_total.
    intros x Hx. apply Hincl in Hx.
    replace snp_counter with (fst (index_lineage members)) in Hx by now rewrite Ei.
    apply snp_counter_keys in Hx as (r & Hr & Hx). exact (Hkeyed r Hr x Hx). }
  destruct l as [| x l].
  - destruct (Hfallback def1 Hd1) as [s1 S1]. destruct (Hfallback def2 Hd2) as [s2 S2].
    rewrite S1, S2. exact I.
  - destruct (snp_list_to_snp_string (x :: l)); cbn [bind]; [exact I | reflexivity].
Qed.

Lemma lineage_loop_outcome (list_of_set : list string -> list string)
    (d1 r1 d2 r2 : Q) (lineages_dict : dict SeqRecord) (todo : list string) :
  (forall lineage, Forall keyed (dict_get lineage lineages_dict)) ->
  forall o1 m1 l1 o2 m2 l2,
  same_outcome
    (snd (lineage_loop list_of_set d1 r1 lineages_dict todo o1 m1 l1))
    (snd (lineage_loop list_of_set d2 r2 lineages_dict todo o2 m2 l2)).
Proof.
  intros Hkeyed. induction todo as [| lineage todo IH]; cbn [lineage_loop]; intros.
  - exact I.
  - pose proof (process_lineage_outcome list_of_set d1 r1 d2 r2 lineage
                  (dict_get lineage lineages_dict) (Hkeyed lineage)) as Hout.
    destruct (process_lineage list_of_set d1 r1 lineage (dict_get lineage lineages_dict))
      as [rows1 [[s1 row1] | e1]];
      destruct (process_lineage list_of_set d2 r2 lineage (dict_get lineage lineages_dict))
      as [rows2 [[s2 row2] | e2]]; cbn [snd same_outcome] in *;
      try contradiction; auto.
Qed.

Lemma add_to_lineage_Forall (P : SeqRecord -> Prop) (lineage_file : list (string * string))
    (alignment : list SeqRecord) :
  Forall P alignment ->
  forall d, Forall (fun e => Forall P (snd e)) d ->
  Forall (fun e => Forall P (snd e)) (fold_left (add_to_lineage lineage_file) alignment d).
Proof.
  induction 1 as [| r alignment Hr _ IH]; simpl; intros d Hd; [exact Hd |].
  apply IH. unfold add_to_lineage.
  destruct (String.eqb (id r) reference_id); [exact Hd |].
  destruct (lineage_of lineage_file (id r)); [| exact Hd].
  now apply append_values_Forall.
Qed.

Lemma get_lineage_dict_Forall (P : SeqRecord -> Prop) (alignment : list SeqRecord)
    (lineage_file : list (string * string)) (lineage : string) :
  Forall P alignment ->
  Forall P (dict_get lineage (get_lineage_dict alignment lineage_file)).
Proof.
  intros Hall. apply dict_get_Forall. unfold get_lineage_dict.
  apply Forall_map. cbn [snd].
  eapply Forall_impl; [| apply add_to_lineage_Forall; [exact Hall | constructor]].
  cbv beta. intros [k rs] Hrs. cbn [snd] in *.
  rewrite Forall_forall in *. intros r Hr. apply Hrs.
  now apply (sorted_In Qle_bool pcent_N).
Qed.

Lemma add_snps_annotation_keyed (with_N : list (string * string * Q))
    (reference_seq : string) (records : list SeqRecord) :
  add_snps_annotation with_N reference_seq = Ok records -> Forall keyed records.
Proof.
  unfold add_snps_annotation. intros H. apply mapM_Ok in H.
  induction H as [| [[name residues] pcent] r with_N records Hr _ IH]; constructor; auto.
  unfold annotate_snps in Hr.
  apply bind_Ok in Hr as (sn & _ & Hr). apply bind_Ok in Hr as (ss & Hs & Hr).
  injection Hr as <-. unfold keyed. cbn [snps].
  eapply snp_string_keys; eauto.
Qed.

(** C9 (as amended): the cut-offs are never validated; whether a run
    returns or raises, and which exception it raises, does not depend on the
    cut-off values, whatever they are. *)
Theorem outcome_independent_of_cutoffs (list_of_set : list string -> list string)
    (aln lineage_file : list (string * string))
    (defining_cut_off represent_cut_off defining_cut_off' represent_cut_off' : Q) :
  same_outcome
    (snd (get_all_snps list_of_set aln lineage_file defining_cut_off represent_cut_off))
    (snd (get_all_snps list_of_set aln lineage_file defining_cut_off' represent_cut_off')).
Proof.
  unfold get_all_snps.
  destruct (get_reference aln) as [reference |]; [| reflexivity].
  destruct (add_N_annotation aln) as [with_N | e]; cbn [bind]; [| reflexivity].
  destruct (add_snps_annotation with_N (snd reference)) as [records | e] eqn:E;
    [| reflexivity].
  apply lineage_loop_outcome. intros lineage.
  apply get_lineage_dict_Forall. eapply add_snps_annotation_keyed; eauto.
Qed.

(** C9 (as stated) fails: with the representative cut-off (90) above the
    defining cut-off (10) the run returns its three tables. *)
Lemma swapped_cutoffs_accepted :
  ~ (forall list_of_set aln lineage_file (defining_cut_off represent_cut_off : Q),
       ~ (0 <= represent_cut_off /\ represent_cut_off <= defining_cut_off /\
          defining_cut_off <= 100)%Q ->
       exists e,
         get_all_snps list_of_set aln lineage_file defining_cut_off represent_cut_off
         = ([], Raise e)).
Proof.
  intros H.
  destruct (H (fun s => s)
              [("Wuhan/WH04/2020", "ACGT"); ("M1", "ACGA"); ("M2", "ACGA"); ("M3", "ATGT")]
              [("M1", "X"); ("M2", "X"); ("M3", "X")] 10%Q 90%Q) as [e He].
  - intros (_ & Hle & _). vm_compute in Hle. now apply Hle.
  - vm_compute in He. discriminate.
Qed.

(** ** The defining SNPs of a lineage *)



Lemma lineage_snps_keys_iff (members : list SeqRecord) (k : string) :
  In k (keys (snd (index_lineage members))) <->
  exists r, In r members /\ snp_string r = k.
Proof.
  rewrite index_lineage_eq. cbn [snd]. rewrite build_keys. simpl.
  split; [intros [[] | H]; exact H | auto].
Qed.

Section DefiningSnps.
Variable list_of_set : list string -> list string.
Hypothesis list_of_set_perm : forall s, Permutation (list_of_set s) s.



End DefiningSnps.

(** C2 at its failing input: one member identical to the reference.  The
    SNP lists of the lineage have no common event and the cut-off based
    [defining] list is empty, so the defining row should be the empty one;
    the run writes the representative and raises [ValueError] instead. *)
Theorem defining_fallback_missed :
  let members := [mkSeqRecord "M4" "ACGT" (0 # 4) [] EmptyString] in
  Forall (annotated "ACGT") members /\
  (forall x, ~ (forall r, In r members -> In x (snps r))) /\
  get_represented_and_defining_snps
    (get_singleton_snps "A" (fst (index_lineage members)))
    (fst (index_lineage members)) members 90 10 = Ok ([], []) /\
  snp_list_to_snp_string [] = Ok EmptyString /\
  get_all_snps (fun s => s)
    [("Wuhan/WH04/2020", "ACGT"); ("M4", "ACGT")] [("M4", "A")] 90 10
  = ([("A", "M4")], Raise ValueError).
Proof.
  cbv zeta. split; [repeat constructor |].
  split; [intros x H; exact (H _ (or_introl eq_refl)) |].
  split; [reflexivity |]. split; reflexivity.
Qed.

(** * Further properties of the script *)

(** ** The SNP extractor *)

Lemma find_snps_from_short (ref : string) :
  forall index member, String.length member < String.length ref ->
  find_snps_from index ref member = Raise IndexError.
Proof.
  induction ref as [| r ref IH]; simpl; intros index member Hlen; [lia |].
  destruct member as [| m member]; [reflexivity |]. simpl in Hlen.
  rewrite IH by lia. reflexivity.
Qed.

Lemma find_snps_from_length (ref : string) :
  forall index member l, find_snps_from index ref member = Ok l ->
  List.length l <= String.length ref.
Proof.
  induction ref as [| r ref IH]; simpl; intros index member l H.
  - injection H as <-. simpl. lia.
  - destruct member as [| m member]; [discriminate |].
    apply bind_Ok in H as (rest & Hrest & H). apply IH in Hrest.
    destruct (_ && _); injection H as <-; simpl; lia.
Qed.

(** X1: [find_snps] raises [IndexError] exactly when the member is shorter
    than the reference; otherwise it returns a list with at most one event
    per reference column (a longer member is read up to the length of the
    reference). *)
Theorem find_snps_raises_iff_shorter (ref member : string) :
  (find_snps ref member = Raise IndexError <->
   String.length member < String.length ref) /\
  (String.length ref <= String.length member ->
   exists l, find_snps ref member = Ok l /\ List.length l <= String.length ref).
Proof.
  unfold find_snps. split; [split |].
  - intros H. destruct (Nat.lt_ge_cases (String.length member) (String.length ref))
      as [Hlt | Hge]; [exact Hlt |].
    destruct (find_snps_from_total ref 0 member Hge) as [l E]. congruence.
  - apply find_snps_from_short.
  - intros Hge. destruct (find_snps_from_total ref 0 member Hge) as [l E].
    exists l. split; [exact E |]. eapply find_snps_from_length; eauto.
Qed.

Lemma find_snps_raises_iff_shorter_witness :
  find_snps "ACGT" "ATG" = Raise IndexError /\
  exists l, find_snps "ACG" "ATGT" = Ok l /\ List.length l <= 3.
Proof.
  split.
  - apply (proj1 (find_snps_raises_iff_shorter "ACGT" "ATG")). simpl. lia.
  - apply (proj2 (find_snps_raises_iff_shorter "ACG" "ATGT")). simpl. lia.
Defined.

Lemma find_snps_from_identical (s : string) :
  forall index, find_snps_from index s s = Ok [].
Proof.
  induction s as [| c s IH]; simpl; intros index; [reflexivity |].
  rewrite IH. cbn [bind]. now rewrite Ascii.eqb_refl.
Qed.

(** X2: a sequence has no SNP against itself. *)
Theorem find_snps_identical (s : string) : find_snps s s = Ok [].
Proof. apply find_snps_from_identical. Qed.





(** ** The SNP string *)

Lemma mapM_Raise {A B : Type} (f : A -> result B) (l : list A) (e : exn) :
  mapM f l = Raise e -> exists a, In a l /\ f a = Raise e.
Proof.
  induction l as [| a l IH]; simpl; [discriminate |].
  destruct (f a) as [b | e'] eqn:E; cbn [bind].
  - destruct (mapM f l) as [bs | e'']; cbn [bind]; [discriminate |].
    intros H. destruct IH as (x & Hx & Ex); [exact H |]. eauto.
  - intros H. injection H as <-. eauto.
Qed.

Lemma int_raises_ValueError (s : string) (e : exn) : Py.int s = Raise e -> e = ValueError.
Proof.
  unfold Py.int. destruct s; [congruence |].
  destruct (NilEmpty.uint_of_string _); congruence.
Qed.

Lemma position_key_Ok (x : string) (p : nat * string) :
  position_key x = Ok p <-> snp_position x = Ok (fst p) /\ snd p = x.
Proof.
  unfold position_key, snp_position. destruct (Py.int (Py.drop_last2 x)) as [k | e];
    cbn [bind]; split.
  - intros H. injection H as <-. auto.
  - intros [H <-]. injection H as ->. now destruct p.
  - discriminate.
  - intros [H _]. discriminate.
Qed.





Lemma mapM_position_key_combine (l : list string) (ps : list nat) :
  mapM snp_position l = Ok ps ->
  mapM position_key l = Ok (combine ps l) /\ List.length ps = List.length l.
Proof.
  revert ps. induction l as [| x l IH]; simpl; intros ps H.
  - injection H as <-. auto.
  - apply bind_Ok in H as (p & Hp & H). apply bind_Ok in H as (ps' & Hps & H).
    injection H as <-. destruct (IH ps' Hps) as [E Hlen].
    assert (Ex : position_key x = Ok (p, x)) by (apply position_key_Ok; auto).
    rewrite Ex. cbn [bind]. rewrite E. cbn [bind combine]. simpl. auto.
Qed.

Lemma combine_Sorted (ps : list nat) :
  StronglySorted le ps ->
  forall l : list string,
  Sorted (fun a b : nat * string => (fst a <=? fst b) = true) (combine ps l).
Proof.
  induction 1 as [| p ps Hs IH Hall]; intros l; simpl; [constructor |].
  destruct l as [| x l]; [constructor |]. constructor; [apply IH |].
  destruct ps as [| q ps]; simpl; [constructor |].
  destruct l as [| y l]; constructor. cbn [fst]. apply Nat.leb_le.
  inversion Hall; assumption.
Qed.

Lemma map_snd_combine (ps : list nat) (l : list string) :
  List.length ps = List.length l -> map snd (combine ps l) = l.
Proof.
  revert l. induction ps as [| p ps IH]; destruct l as [| x l]; simpl; intros H;
    try discriminate; [reflexivity |].
  now rewrite IH by lia.
Qed.

Lemma find_snps_snp_string (ref member : string) (l : list string) :
  find_snps ref member = Ok l ->
  snp_list_to_snp_string l = Ok (String.concat ";" l).
Proof.
  intros H. apply find_snps_from_positions in H as (ps & Eps & _ & Hsorted & _).
  destruct (mapM_position_key_combine l ps Eps) as [E Hlen].
  unfold snp_list_to_snp_string. rewrite E. cbn [bind].
  rewrite sorted_of_Sorted by now apply combine_Sorted.
  now rewrite map_snd_combine.
Qed.

(** X5: on the list [find_snps] returns, [snp_list_to_snp_string] never
    raises and joins the list as it is (the events already are in position
    order); when the reference has no [;] and the list is not empty,
    splitting the SNP string at [;] gives the list back. *)
Theorem snp_string_round_trip (ref member : string) (l : list string) :
  find_snps ref member = Ok l ->
  snp_list_to_snp_string l = Ok (String.concat ";" l) /\
  (no_semicolon ref -> l <> [] -> Py.split_semi (String.concat ";" l) = l).
Proof.
  intros H. split; [eapply find_snps_snp_string; eauto |].
  intros Hns Hne. apply split_semi_concat; [exact Hne |].
  apply find_snps_from_shape in H.
  eapply Forall_impl; [| exact H]. cbv beta. intros x [_ Hx]. auto.
Qed.

Lemma snp_string_round_trip_witness :
  snp_list_to_snp_string ["2CT"; "4TA"] = Ok (String.concat ";" ["2CT"; "4TA"]) /\
  (no_semicolon "ACGT" -> ["2CT"; "4TA"] <> [] ->
   Py.split_semi (String.concat ";" ["2CT"; "4TA"]) = ["2CT"; "4TA"]).
Proof.
  apply (snp_string_round_trip "ACGT" "ATGA"). reflexivity.
Defined.

(** ** N content *)

Lemma count_le_length (c : ascii) (s : string) : Py.count c s <= String.length s.
Proof.
  induction s as [| a s IH]; simpl; [lia |]. destruct (Ascii.eqb a c); lia.
Qed.

Lemma str_upper_length (s : string) : String.length (Py.str_upper s) = String.length s.
Proof. induction s as [| a s IH]; simpl; congruence. Qed.

(** X6: [get_N_content] raises [ZeroDivisionError] on the empty sequence
    and otherwise returns a percentage between 0 and 100. *)
Theorem get_N_content_range (seq : string) :
  (seq = EmptyString -> get_N_content seq = Raise ZeroDivisionError) /\
  (seq <> EmptyString ->
   exists p, get_N_content seq = Ok p /\ (0 <= p)%Q /\ (p <= 100)%Q).
Proof.
  split; [intros ->; reflexivity |]. intros Hne. unfold get_N_content.
  destruct seq as [| c s]; [congruence |].
  set (seq := String c s). assert (Hlen : String.length seq = S (String.length s))
    by reflexivity.
  rewrite Hlen. cbn [Nat.eqb]. eexists; split; [reflexivity |].
  pose proof (count_le_length "N" (Py.str_upper seq)) as Hc.
  rewrite str_upper_length, Hlen in Hc.
  unfold Qle; cbn [Qnum Qden]. split; [lia |].
  rewrite <- (positive_nat_Z (Pos.of_nat (S (String.length s)))).
  rewrite Nat2Pos.id by discriminate. nia.
Qed.

Lemma get_N_content_range_witness :
  get_N_content EmptyString = Raise ZeroDivisionError /\
  exists p, get_N_content "ANNA" = Ok p /\ (0 <= p)%Q /\ (p <= 100)%Q.
Proof.
  split.
  - apply (proj1 (get_N_content_range EmptyString)). reflexivity.
  - apply (proj2 (get_N_content_range "ANNA")). discriminate.
Defined.

(** ** The classifier *)

Lemma classify_snps_In singletons snp_counter total defining_cut_off represent_cut_off
    (todo defining flagged : list string) :
  classify_snps singletons snp_counter total defining_cut_off represent_cut_off todo
    = Ok (defining, flagged) ->
  forall snp,
    (In snp defining <->
     In snp todo /\ is_singleton singletons snp = false /\
     exists p, get_inclusion_pcent snp snp_counter total = Ok p /\
               (defining_cut_off < p)%Q) /\
    (In snp flagged <->
     In snp todo /\ is_singleton singletons snp = false /\
     exists p, get_inclusion_pcent snp snp_counter total = Ok p /\
               (represent_cut_off < p)%Q).
Proof.
  revert defining flagged.
  induction todo as [| s todo IH]; cbn [classify_snps]; intros d f H snp.
  - injection H as <- <-. simpl. tauto.
  - destruct (is_singleton singletons s) eqn:Es.
    + destruct (IH d f H snp) as [Hd Hf]. rewrite Hd, Hf. simpl.
      split; (split; [tauto |]); intros ([-> | Hin] & Hns & Hp); try congruence; tauto.
    + apply bind_Ok in H as (p & Ep & H). apply bind_Ok in H as ([d' f'] & E & H).
      destruct (IH d' f' E snp) as [Hd Hf]. injection H as <- <-.
      assert (Hcase : forall cut l l',
                (In snp l' <-> In snp todo /\ is_singleton singletons snp = false /\
                   exists q, get_inclusion_pcent snp snp_counter total = Ok q /\ (cut < q)%Q) ->
                l = (if Qgtb p cut then s :: l' else l') ->
                (In snp l <-> In snp (s :: todo) /\ is_singleton singletons snp = false /\
                   exists q, get_inclusion_pcent snp snp_counter total = Ok q /\ (cut < q)%Q)).
      { intros cut l l' Hl' ->. destruct (Qgtb p cut) eqn:G.
        - apply Qgtb_true in G. simpl. rewrite Hl'. split.
          + intros [<- | Hin]; [eauto 6 | tauto].
          + intros ([<- | Hin] & Hns & Hq); tauto.
        - rewrite Hl'. simpl. split; [tauto |].
          intros ([<- | Hin] & Hns & q & Eq & Hq); [| eauto 6].
          exfalso. rewrite Ep in Eq. injection Eq as <-.
          apply Qgtb_true in Hq. congruence. }
      split; eapply Hcase; eauto.
Qed.



(** X8: when the representative cut-off is at most the defining cut-off,
    every defining SNP is also flagged for representation. *)
Theorem defining_included_in_flagged (singletons : list mask_row)
    (snp_counter : dict string) (members : list SeqRecord)
    (defining_cut_off represent_cut_off : Q) (defining flagged : list string) :
  (represent_cut_off <= defining_cut_off)%Q ->
  get_represented_and_defining_snps singletons snp_counter members
    defining_cut_off represent_cut_off = Ok (defining, flagged) ->
  incl defining flagged.
Proof.
  intros Hle H snp Hd.
  destruct (classify_snps_In _ _ _ _ _ _ _ _ H snp) as [Hdef Hfl].
  apply Hfl. apply Hdef in Hd as (Hk & Hs & p & Ep & Hp).
  split; [exact Hk |]. split; [exact Hs |]. exists p. split; [exact Ep |].
  eapply Qle_lt_trans; eauto.
Qed.

Lemma defining_included_in_flagged_witness : incl ["4TA"] ["4TA"].
Proof.
  apply (defining_included_in_flagged [] [("4TA", ["M1"; "M2"])]
           [mkSeqRecord "M1" "ACGA" 0 ["4TA"] "4TA";
            mkSeqRecord "M2" "ACGA" 0 ["4TA"] "4TA"] 90 10).
  - vm_compute. discriminate.
  - reflexivity.
Defined.

Lemma get_singleton_snps_lineage (lineage : string) (snp_counter : dict string)
    (row : mask_row) :
  In row (get_singleton_snps lineage snp_counter) ->
  exists snp taxon, row = (lineage, snp, taxon).
Proof.
  induction snp_counter as [| [s ids] d IH]; simpl; [intros [] |].
  destruct ids as [| t [| t' ids]]; simpl; auto.
  intros [<- | H]; eauto.
Qed.

Lemma occurrences_carrier (snp taxon : string) (members : list SeqRecord) :
  In taxon (occurrences snp members) ->
  exists r, In r members /\ id r = taxon /\ In snp (snps r).
Proof.
  unfold occurrences. intros H. apply in_flat_map in H as (r & Hr & H).
  apply in_map_iff in H as (s & <- & Hs). apply filter_In in Hs as [Hs E].
  apply String.eqb_eq in E. subst s. eauto.
Qed.

(** X9: every mask row computed for a lineage bears the name of that
    lineage, and its taxon is the identifier of a member whose SNP list
    contains the masked SNP; no SNP is masked twice for one lineage. *)
Theorem mask_rows_sound (lineage : string) (members : list SeqRecord) :
  let singletons := get_singleton_snps lineage (fst (index_lineage members)) in
  (forall row, In row singletons ->
     fst (fst row) = lineage /\
     exists r, In r members /\ id r = snd row /\ In (snd (fst row)) (snps r)) /\
  NoDup (map (fun row : mask_row => snd (fst row)) singletons).
Proof.
  cbv zeta. split.
  - intros row Hrow.
    destruct (get_singleton_snps_lineage _ _ _ Hrow) as (snp & taxon & ->).
    split; [reflexivity |]. cbn [fst snd].
    apply singleton_iff_occurrences in Hrow.
    apply occurrences_carrier. rewrite Hrow. now left.
  - pose proof (snp_counter_NoDup members) as Hnd. unfold keys in Hnd.
    induction (fst (index_lineage members)) as [| [s ids] d IH]; simpl; [constructor |].
    inversion Hnd as [| ? ? Hnin Hd]; subst.
    destruct ids as [| t [| t' ids]]; simpl; auto.
    constructor; [| auto]. intros Hin. apply Hnin.
    apply in_map_iff in Hin as (row & Es & Hrow).
    destruct (get_singleton_snps_lineage _ _ _ Hrow) as (snp & taxon & ->).
    cbn [fst snd] in Es. subst snp.
    apply get_singleton_snps_In in Hrow. apply in_map_iff. now exists (s, [taxon]).
Qed.

Lemma is_singleton_false (lineage : string) (members : list SeqRecord) (snp : string) :
  2 <= List.length (carriers snp members) ->
  is_singleton (get_singleton_snps lineage (fst (index_lineage members))) snp = false.
Proof.
  intros Hlen. unfold is_singleton.
  apply not_true_iff_false. intros H. apply existsb_exists in H as (row & Hrow & E).
  destruct (get_singleton_snps_lineage _ _ _ Hrow) as (s & taxon & ->).
  cbn [fst snd] in E. apply String.eqb_eq in E. subst s.
  apply singleton_iff_occurrences in Hrow.
  pose proof (carriers_le_occurrences snp members) as Hle.
  rewrite Hrow in Hle. simpl in Hle. lia.
Qed.

Lemma carriers_all (snp : string) (members : list SeqRecord) :
  (forall r, In r members -> In snp (snps r)) -> carriers snp members = members.
Proof.
  unfold carriers. induction members as [| r members IH]; simpl; intros H; [reflexivity |].
  assert (E : str_in snp (snps r) = true) by (apply str_in_iff, H; now left).
  rewrite E, IH; auto.
Qed.

(** X10: in a lineage of at least two members, an SNP found in the SNP
    list of every member is not masked and is in the cut-off based
    [defining] list for every defining cut-off below 100. *)
Theorem common_snp_is_defining (lineage : string) (members : list SeqRecord)
    (defining_cut_off represent_cut_off : Q) (snp : string) :
  2 <= List.length members ->
  (forall r, In r members -> In snp (snps r)) ->
  (defining_cut_off < 100)%Q ->
  exists defining flagged,
    get_represented_and_defining_snps
      (get_singleton_snps lineage (fst (index_lineage members)))
      (fst (index_lineage members)) members defining_cut_off represent_cut_off
    = Ok (defining, flagged) /\
    In snp defining /\
    forall taxon,
      ~ In (lineage, snp, taxon)
           (get_singleton_snps lineage (fst (index_lineage members))).
Proof.
  intros Hlen Hall Hcut.
  pose proof (carriers_all snp members Hall) as Hcar.
  destruct (classification_total lineage members defining_cut_off represent_cut_off)
    as (defining & flagged & E & _).
  exists defining, flagged. split; [exact E |]. split.
  - destruct (classify_snps_In _ _ _ _ _ _ _ _ E snp) as [Hdef _]. apply Hdef.
    split; [| split].
    + apply snp_counter_keys. destruct members as [| r members]; [simpl in Hlen; lia |].
      exists r. split; [now left | apply Hall; now left].
    + apply is_singleton_false. now rewrite Hcar.
    + unfold get_inclusion_pcent.
      destruct (Nat.eqb_spec (List.length members) 0) as [E0 | _]; [lia |].
      eexists; split; [reflexivity |].
      rewrite snp_counter_get.
      pose proof (carriers_le_occurrences snp members) as Hle. rewrite Hcar in Hle.
      eapply Qlt_le_trans; [exact Hcut |].
      unfold Qle; cbn [Qnum Qden].
      rewrite <- (positive_nat_Z (Pos.of_nat (List.length members))).
      rewrite Nat2Pos.id by lia. nia.
  - intros taxon Hin. apply singleton_iff_occurrences in Hin.
    pose proof (carriers_le_occurrences snp members) as Hle.
    rewrite Hcar, Hin in Hle. simpl in Hle. lia.
Qed.

Lemma common_snp_is_defining_witness :
  exists defining flagged,
    get_represented_and_defining_snps
      (get_singleton_snps "X"
         (fst (index_lineage [mkSeqRecord "M1" "ACGA" 0 ["4TA"] "4TA";
                              mkSeqRecord "M2" "ACGA" 0 ["4TA"] "4TA"])))
      (fst (index_lineage [mkSeqRecord "M1" "ACGA" 0 ["4TA"] "4TA";
                           mkSeqRecord "M2" "ACGA" 0 ["4TA"] "4TA"]))
      [mkSeqRecord "M1" "ACGA" 0 ["4TA"] "4TA";
       mkSeqRecord "M2" "ACGA" 0 ["4TA"] "4TA"] 90 10
    = Ok (defining, flagged) /\
    In "4TA" defining /\
    forall taxon,
      ~ In ("X", "4TA", taxon)
           (get_singleton_snps "X"
              (fst (index_lineage [mkSeqRecord "M1" "ACGA" 0 ["4TA"] "4TA";
                                   mkSeqRecord "M2" "ACGA" 0 ["4TA"] "4TA"]))).
Proof.
  apply (common_snp_is_defining "X"
           [mkSeqRecord "M1" "ACGA" 0 ["4TA"] "4TA";
            mkSeqRecord "M2" "ACGA" 0 ["4TA"] "4TA"] 90 10 "4TA").
  - simpl. lia.
  - intros r [<- | [<- | []]]; simpl; auto.
  - reflexivity.
Defined.

(** X11: the two indexes of a lineage, read back by key: [snp_counter]
    holds for an SNP the identifiers of its carriers in member order, one
    per occurrence, and [lineage_snps] holds for an SNP string the
    [(id, pcent_N)] pairs of the members with that string, in member order;
    the keys of [snp_counter] are the SNPs of the members, and no key is
    held twice. *)
Theorem index_lineage_lookup (members : list SeqRecord) :
  (forall snp, dict_get snp (fst (index_lineage members)) = occurrences snp members) /\
  (forall k, dict_get k (snd (index_lineage members)) =
             map (fun r => (id r, pcent_N r))
               (filter (fun r => String.eqb k (snp_string r)) members)) /\
  (forall snp, In snp (keys (fst (index_lineage members))) <->
               exists r, In r members /\ In snp (snps r)) /\
  (forall k, In k (keys (snd (index_lineage members))) <->
             exists r, In r members /\ snp_string r = k) /\
  NoDup (keys (fst (index_lineage members))) /\
  NoDup (keys (snd (index_lineage members))).
Proof.
  split; [intros; apply snp_counter_get |].
  split; [intros; apply lineage_snps_get |].
  split; [intros; apply snp_counter_keys |].
  split; [intros; apply lineage_snps_keys_iff |].
  split; [apply snp_counter_NoDup |].
  rewrite index_lineage_eq. cbn [snd]. apply build_NoDup. constructor.
Qed.

(** ** The selector and the padding *)

Lemma fold_pad_step_added (members : list SeqRecord) :
  forall taxa,
  exists added,
    fold_left pad_step members taxa = taxa ++ added /\
    incl added members /\
    List.length taxa + List.length added <= Nat.max 3 (List.length taxa).
Proof.
  induction members as [| r members IH]; cbn [fold_left]; intros taxa.
  - exists []. rewrite app_nil_r. split; [reflexivity |].
    split; [apply incl_refl | cbn [List.length]; lia].
  - destruct (IH (pad_step taxa r)) as (added & E & Hincl & Hlen). rewrite E.
    unfold pad_step in *. unfold get_ids_in_list_of_records in *.
    destruct (Nat.ltb_spec (List.length taxa) 3) as [Hlt | Hge].
    + destruct (str_in (id r) (map id taxa)).
      * exists added. split; [reflexivity |]. split; [now apply incl_tl | exact Hlen].
      * exists (r :: added). rewrite <- app_assoc. split; [reflexivity |].
        split; [apply incl_cons; [now left | now apply incl_tl] |].
        rewrite length_app in Hlen. cbn [List.length] in *. lia.
    + exists added. split; [reflexivity |]. split; [now apply incl_tl | exact Hlen].
Qed.

(** X12: padding keeps the selected records as a prefix, appends only
    members of the lineage, never takes the list beyond three entries, and
    leaves a list of three or more entries as it is. *)
Theorem pad_taxa_to_5_spec (taxa members : list SeqRecord) :
  exists added,
    pad_taxa_to_5 taxa members = taxa ++ added /\
    incl added members /\
    List.length (pad_taxa_to_5 taxa members) <= Nat.max 3 (List.length taxa) /\
    (3 <= List.length taxa -> added = []).
Proof.
  unfold pad_taxa_to_5.
  destruct (Nat.ltb_spec (List.length taxa) 3) as [Hlt | Hge].
  - destruct (fold_pad_step_added members taxa) as (added & E & Hincl & Hlen).
    exists added. rewrite E, length_app. repeat split; auto. lia.
  - exists []. rewrite app_nil_r. repeat split; auto; [intros x [] | lia].
Qed.

(** X13: whatever the flagged list, the selector returns on the indexed
    lineage, and every record of the final, padded list is a member of the
    lineage. *)
Theorem representatives_are_members (members : list SeqRecord) (flagged : list string) :
  exists taxa,
    get_representative_taxa (snd (index_lineage members)) members flagged = Ok taxa /\
    incl taxa members /\
    incl (pad_taxa_to_5 taxa members) members.
Proof.
  destruct (get_representative_taxa_distinct members flagged) as (taxa & E & _ & Hincl).
  exists taxa. split; [exact E |]. split; [exact Hincl |].
  unfold pad_taxa_to_5. destruct (List.length taxa <? 3); [| exact Hincl].
  destruct (fold_pad_step_added members taxa) as (added & -> & Hadded & _).
  now apply incl_app.
Qed.

Lemma visit_record_idle (snp lowest_N : string) (st : sel_state) (record : SeqRecord) :
  id record <> lowest_N \/ snps record = [] ->
  visit_record snp lowest_N st record = st.
Proof.
  unfold visit_record. intros [Hne | Hnil].
  - destruct (String.eqb_spec (id record) lowest_N); [contradiction | reflexivity].
  - rewrite Hnil. now destruct (String.eqb (id record) lowest_N).
Qed.

(** X14: with the lineage annotated against a reference without [;] and its
    identifiers distinct, every record the selector returns (before padding)
    has a flagged SNP in its own SNP list; with nothing flagged the selector
    returns the empty list. *)
Theorem representatives_carry_flagged (reference_seq : string)
    (members : list SeqRecord) (flagged : list string) :
  no_semicolon reference_seq ->
  Forall (annotated reference_seq) members ->
  NoDup (map id members) ->
  exists taxa,
    get_representative_taxa (snd (index_lineage members)) members flagged = Ok taxa /\
    (forall r, In r taxa -> exists snp, In snp flagged /\ In snp (snps r)) /\
    (flagged = [] -> taxa = []).
Proof.
  intros Hns Hann Hids. rewrite Forall_forall in Hann.
  unfold get_representative_taxa.
  destruct (selection_fold
              (fun st => Forall (fun r => exists snp, In snp flagged /\ In snp (snps r))
                           (snd st))
              members flagged) as (st & E & Hst).
  - constructor.
  - intros k g lowest_N pc rest [represented taxa] snp Hin Hhead Hsplit Hst.
    unfold visit_snp.
    destruct (str_in snp flagged) eqn:Ef; [| exact Hst].
    destruct (negb (str_in snp represented)); [| exact Hst]. cbn [andb].
    apply str_in_iff in Ef.
    destruct (group_lowest_member members k g lowest_N pc rest Hin Hhead)
      as (h & Hh & Hid & Hk).
    apply fold_left_invariant; [exact Hst |].
    intros st' record Hrec Hst'.
    destruct (String.eqb_spec (id record) lowest_N) as [Heq | Hne];
      [| rewrite visit_record_idle by auto; exact Hst'].
    destruct (snps record) as [| x l] eqn:En;
      [rewrite visit_record_idle by auto; exact Hst' |].
    assert (record = h) by (apply (NoDup_id_eq members); congruence). subst record.
    destruct (visit_record_extends members snp lowest_N st' h Hh)
      as (_ & _ & (added & -> & Hadded) & _).
    apply Forall_app. split; [exact Hst' |].
    eapply Forall_impl; [| exact Hadded]. cbv beta. intros r [Hr Hrid].
    assert (r = h) by (apply (NoDup_id_eq members); congruence). subst r.
    exists snp. split; [exact Ef |].
    destruct (annotated_split _ _ (Hann h Hh) Hns) as [[Hnil _] | [_ Hperm]];
      [congruence |].
    rewrite <- Hk in Hsplit. eapply Permutation_in; eauto.
  - rewrite E. cbn [bind]. eexists; split; [reflexivity |].
    rewrite Forall_forall in Hst. split; [exact Hst |].
    intros ->. destruct (snd st) as [| r taxa]; [reflexivity |].
    destruct (Hst r (or_introl eq_refl)) as (snp & [] & _).
Qed.

Lemma representatives_carry_flagged_witness :
  exists taxa,
    get_representative_taxa
      (snd (index_lineage
              [mkSeqRecord "M1" "ACGA" (0 # 4) ["4TA"] "4TA";
               mkSeqRecord "M2" "ACGA" (0 # 4) ["4TA"] "4TA";
               mkSeqRecord "M3" "ATGT" (0 # 4) ["2CT"] "2CT"]))
      [mkSeqRecord "M1" "ACGA" (0 # 4) ["4TA"] "4TA";
       mkSeqRecord "M2" "ACGA" (0 # 4) ["4TA"] "4TA";
       mkSeqRecord "M3" "ATGT" (0 # 4) ["2CT"] "2CT"] ["4TA"] = Ok taxa /\
    (forall r, In r taxa -> exists snp, In snp ["4TA"] /\ In snp (snps r)) /\
    (["4TA"] = [] -> taxa = []).
Proof.
  apply (representatives_carry_flagged "ACGT").
  - reflexivity.
  - repeat constructor.
  - repeat constructor; simpl; intuition discriminate.
Defined.


(** ** The lineage dictionary *)

Lemma dict_get_map_values {V : Type} (f : list V -> list V) (d : dict V) (k : string) :
  f [] = [] ->
  dict_get k (map (fun e : string * list V => (fst e, f (snd e))) d) = f (dict_get k d).
Proof.
  intros Hf. induction d as [| [k0 vs] d IH]; simpl; [now rewrite Hf |].
  now destruct (String.eqb k k0).
Qed.

Lemma keys_map_values {V : Type} (f : list V -> list V) (d : dict V) :
  keys (map (fun e : string * list V => (fst e, f (snd e))) d) = keys d.
Proof.
  unfold keys. rewrite map_map. apply map_ext. reflexivity.
Qed.

Lemma keys_nonempty_values {V : Type} (d : dict V) (k : string) :
  Forall (fun e => snd e <> []) d -> (In k (keys d) <-> dict_get k d <> []).
Proof.
  intros Hne. split.
  - unfold keys. induction Hne as [| [k0 vs] d H0 _ IH]; simpl; [tauto |].
    destruct (String.eqb_spec k k0) as [-> | Hk]; [intros _; exact H0 |].
    intros [E | Hin]; [congruence | auto].
  - intros H. apply In_dict_get in H. unfold keys. apply in_map_iff.
    now exists (k, dict_get k d).
Qed.

Lemma lineages_records_get (lineage_file : list (string * string))
    (alignment : list SeqRecord) (lineage : string) (r : SeqRecord) :
  forall d,
  In r (dict_get lineage (fold_left (add_to_lineage lineage_file) alignment d)) <->
  In r (dict_get lineage d) \/
  (In r alignment /\ id r <> reference_id /\
   lineage_of lineage_file (id r) = Some lineage).
Proof.
  induction alignment as [| a alignment IH]; simpl; intros d; [tauto |].
  rewrite IH. unfold add_to_lineage.
  destruct (String.eqb_spec (id a) reference_id) as [Eref | Nref].
  - split; [tauto |]. intros [H | ([<- | Hin] & Hn & Hl)]; tauto.
  - destruct (lineage_of lineage_file (id a)) as [l |] eqn:El.
    + rewrite dict_get_append.
      destruct (String.eqb_spec lineage l) as [-> | Hl].
      * rewrite in_app_iff. simpl. split.
        -- intros [[H | [<- | []]] | H]; tauto.
        -- intros [H | ([<- | Hin] & Hn & Hlin)]; tauto.
      * split; [tauto |]. intros [H | ([<- | Hin] & Hn & Hlin)]; try tauto.
        congruence.
    + split; [tauto |]. intros [H | ([<- | Hin] & Hn & Hlin)]; try tauto. congruence.
Qed.

Lemma lineages_records_shape (lineage_file : list (string * string))
    (alignment : list SeqRecord) :
  forall d, NoDup (keys d) -> Forall (fun e => snd e <> []) d ->
  NoDup (keys (fold_left (add_to_lineage lineage_file) alignment d)) /\
  Forall (fun e => snd e <> []) (fold_left (add_to_lineage lineage_file) alignment d).
Proof.
  induction alignment as [| a alignment IH]; simpl; intros d Hnd Hne; [auto |].
  apply IH; unfold add_to_lineage;
    destruct (String.eqb (id a) reference_id); auto;
    destruct (lineage_of lineage_file (id a)); auto.
  - now apply keys_append_NoDup.
  - now apply append_values_nonempty.
Qed.

Lemma lineage_dict_shape (alignment : list SeqRecord)
    (lineage_file : list (string * string)) :
  NoDup (keys (get_lineage_dict alignment lineage_file)) /\
  forall lineage,
    (In lineage (keys (get_lineage_dict alignment lineage_file)) <->
     dict_get lineage (get_lineage_dict alignment lineage_file) <> []) /\
    StronglySorted (fun a b => (pcent_N a <= pcent_N b)%Q)
      (dict_get lineage (get_lineage_dict alignment lineage_file)).
Proof.
  unfold get_lineage_dict.
  destruct (lineages_records_shape lineage_file alignment [])
    as [Hnd Hne]; [constructor | constructor |].
  rewrite keys_map_values. split; [exact Hnd |]. intros lineage.
  rewrite (dict_get_map_values (Py.sorted Qle_bool pcent_N)) by reflexivity.
  split; [| apply members_sorted_by_N].
  rewrite (keys_nonempty_values _ lineage Hne). split; intros H E; apply H.
  - pose proof (sorted_perm Qle_bool pcent_N
                  (dict_get lineage (fold_left (add_to_lineage lineage_file) alignment [])))
      as Hp.
    rewrite E in Hp. now apply Permutation_nil in Hp.
  - now rewrite E.
Qed.

Lemma lineage_dict_members (alignment : list SeqRecord)
    (lineage_file : list (string * string)) (lineage : string) (r : SeqRecord) :
  In r (dict_get lineage (get_lineage_dict alignment lineage_file)) <->
  In r alignment /\ id r <> reference_id /\
  lineage_of lineage_file (id r) = Some lineage.
Proof.
  unfold get_lineage_dict.
  rewrite (dict_get_map_values (Py.sorted Qle_bool pcent_N)) by reflexivity.
  rewrite sorted_In, lineages_records_get. simpl. tauto.
Qed.

(** X15: [get_lineage_dict] puts a record in a lineage exactly when it is
    in the alignment, is not the reference and the lineage file assigns it
    to that lineage; the reference and the records absent from the file are
    in no lineage. *)
Theorem get_lineage_dict_members (alignment : list SeqRecord)
    (lineage_file : list (string * string)) (lineage : string) (r : SeqRecord) :
  In r (dict_get lineage (get_lineage_dict alignment lineage_file)) <->
  In r alignment /\ id r <> reference_id /\
  lineage_of lineage_file (id r) = Some lineage.
Proof. apply lineage_dict_members. Qed.

(** X16: in the dictionary [get_lineage_dict] returns no lineage is listed
    twice, every listed lineage has at least one member, and the members of
    each lineage are in ascending order of N content. *)
Theorem get_lineage_dict_shape (alignment : list SeqRecord)
    (lineage_file : list (string * string)) :
  let lineages_dict := get_lineage_dict alignment lineage_file in
  NoDup (keys lineages_dict) /\
  forall lineage,
    (In lineage (keys lineages_dict) <-> dict_get lineage lineages_dict <> []) /\
    StronglySorted (fun a b => (pcent_N a <= pcent_N b)%Q)
      (dict_get lineage lineages_dict).
Proof. apply lineage_dict_shape. Qed.

(** X17: [lineage_of] finds no lineage exactly for the taxa the lineage
    file does not name, and a later line for a taxon replaces an earlier
    one without touching the other taxa. *)
Theorem lineage_of_spec (lineage_file : list (string * string)) (taxon : string) :
  (lineage_of lineage_file taxon = None <-> ~ In taxon (map fst lineage_file)) /\
  (forall lineage, lineage_of (lineage_file ++ [(taxon, lineage)]) taxon = Some lineage) /\
  (forall other lineage, other <> taxon ->
     lineage_of (lineage_file ++ [(other, lineage)]) taxon
     = lineage_of lineage_file taxon).
Proof.
  split; [| split].
  - induction lineage_file as [| [k v] rest IH]; simpl; [tauto |].
    destruct (lineage_of rest taxon) as [l |].
    + split; [discriminate |]. intros H. exfalso. apply H. right.
      destruct (in_dec string_dec taxon (map fst rest)) as [Hin | Hnin]; [exact Hin |].
      apply IH in Hnin. discriminate.
    + destruct (String.eqb_spec k taxon) as [-> | Hk].
      * split; [discriminate | tauto].
      * split; [| reflexivity]. intros _ [E | Hin]; [congruence |].
        apply (proj1 IH eq_refl Hin).
  - intros lineage. induction lineage_file as [| [k v] rest IH]; simpl.
    + now rewrite String.eqb_refl.
    + now rewrite IH.
  - intros other lineage Hne. induction lineage_file as [| [k v] rest IH]; simpl.
    + destruct (String.eqb_spec other taxon); [contradiction | reflexivity].
    + now rewrite IH.
Qed.

(** ** The whole run *)

Lemma snp_list_to_snp_string_raises (l : list string) (e : exn) :
  snp_list_to_snp_string l = Raise e -> e = ValueError.
Proof.
  unfold snp_list_to_snp_string.
  destruct (mapM position_key l) as [keyed_l | e'] eqn:E; cbn [bind]; [discriminate |].
  intros H. injection H as ->. apply mapM_Raise in E as (x & _ & Ex).
  unfold position_key in Ex.
  destruct (Py.int (Py.drop_last2 x)) as [k | e'] eqn:Ei; cbn [bind] in Ex;
    [discriminate |].
  injection Ex as ->. eapply int_raises_ValueError; eauto.
Qed.

Lemma intersection_signature_total (list_of_set : list string -> list string)
    (members : list SeqRecord) :
  members <> [] ->
  exists common,
    intersection_signature list_of_set (snd (index_lineage members)) = Ok common.
Proof.
  intros Hne. destruct members as [| r members]; [congruence |].
  pose proof (lineage_snps_keys (r :: members) r (or_introl eq_refl)) as Hk.
  unfold intersection_signature.
  destruct (keys (snd (index_lineage (r :: members)))) as [| k ks]; [destruct Hk |].
  cbn [map set_intersection bind]. eauto.
Qed.


Lemma process_lineage_result (list_of_set : list string -> list string)
    (defining_cut_off represent_cut_off : Q) (lineage : string)
    (members : list SeqRecord) :
  exists taxa tail,
    process_lineage list_of_set defining_cut_off represent_cut_off lineage members
    = (map (fun record => (lineage, id record)) (pad_taxa_to_5 taxa members), tail) /\
    NoDup (map id taxa) /\
    (forall singletons row, tail = Ok (singletons, row) ->
       singletons = get_singleton_snps lineage (fst (index_lineage members)) /\
       fst row = lineage) /\
    (forall e, tail = Raise e -> members <> [] -> e = ValueError).
Proof.
  unfold process_lineage.
  destruct (classification_total lineage members defining_cut_off represent_cut_off)
    as (defining & flagged & Ec & _).
  destruct (get_representative_taxa_distinct members flagged) as (taxa & Et & Hnd & _).
  pose proof (intersection_signature_total list_of_set members) as Hi.
  destruct (index_lineage members) as [snp_counter lineage_snps].
  cbn [fst snd] in *. rewrite Ec. cbn [bind]. rewrite Et. cbn [bind].
  eexists taxa, _. split; [reflexivity |]. split; [exact Hnd |]. split.
  - intros singletons row H.
    apply bind_Ok in H as (common & _ & H). apply bind_Ok in H as (s & _ & H).
    injection H as <- <-. auto.
  - intros e H Hne. destruct (Hi Hne) as [common Ecommon].
    rewrite Ecommon in H. cbn [bind] in H.
    destruct (snp_list_to_snp_string _) as [s | e'] eqn:Es; cbn [bind] in H;
      [discriminate |].
    injection H as <-. eapply snp_list_to_snp_string_raises; eauto.
Qed.



Lemma add_N_annotation_Ok (aln : list (string * string))
    (with_N : list (string * string * Q)) :
  add_N_annotation aln = Ok with_N -> map fst with_N = aln.
Proof.
  unfold add_N_annotation. intros H. apply mapM_Ok in H.
  induction H as [| rec x aln with_N Hx _ IH]; simpl; [reflexivity |].
  apply bind_Ok in Hx as (p & _ & Hx). injection Hx as <-. simpl.
  rewrite IH. now destruct rec.
Qed.




Lemma string_leb_iff (a b : string) :
  String.leb a b = true <-> a = b \/ String_as_OT.lt a b.
Proof.
  unfold String.leb.
  pose proof (String_as_OT.cmp_eq a b) as Heq.
  pose proof (String_as_OT.cmp_lt a b) as Hlt.
  pose proof (String_as_OT.cmp_antisym a b) as Hanti.
  unfold String_as_OT.cmp in *.
  destruct (String.compare a b) eqn:E.
  - split; [left; now apply Heq | reflexivity].
  - split; [right; now apply Hlt | reflexivity].
  - split; [discriminate |]. intros [H | H].
    + apply Heq in H. discriminate.
    + apply Hlt in H. discriminate.
Qed.

Lemma string_leb_trans (a b c : string) :
  String.leb a b = true -> String.leb b c = true -> String.leb a c = true.
Proof.
  rewrite !string_leb_iff. intros [-> | Hab] [-> | Hbc]; auto.
  right. eapply String_as_OT.lt_trans; eauto.
Qed.

Lemma lineage_loop_tables (list_of_set : list string -> list string)
    (defining_cut_off represent_cut_off : Q) (lineages_dict : dict SeqRecord)
    (todo : list string) :
  forall outfile to_mask rows written to_mask' rows',
  lineage_loop list_of_set defining_cut_off represent_cut_off lineages_dict todo
    outfile to_mask rows = (written, Ok (to_mask', rows')) ->
  map fst rows' = map fst rows ++ todo /\
  (forall row, In row written -> In row outfile \/ In (fst row) todo) /\
  (forall row, In row to_mask' -> In row to_mask \/ In (fst (fst row)) todo).
Proof.
  induction todo as [| lineage todo IH]; cbn [lineage_loop];
    intros outfile to_mask rows written to_mask' rows' H.
  - injection H as <- <- <-. rewrite app_nil_r. auto.
  - destruct (process_lineage_result list_of_set defining_cut_off represent_cut_off
                lineage (dict_get lineage lineages_dict))
      as (taxa & tail & E & _ & Hok & _).
    rewrite E in H. destruct tail as [[singletons row] | e']; [| discriminate].
    destruct (Hok singletons row eq_refl) as [Hs Hrow].
    apply IH in H as (Hrows & Hwritten & Hmask).
    split; [| split].
    + rewrite Hrows, map_app. simpl. rewrite Hrow, <- app_assoc. reflexivity.
    + intros x Hx. apply Hwritten in Hx as [Hx | Hx]; [| right; now right].
      apply in_app_or in Hx as [Hx | Hx]; [now left |].
      apply in_map_iff in Hx as (r & <- & _). right. now left.
    + intros x Hx. apply Hmask in Hx as [Hx | Hx]; [| right; now right].
      apply in_app_or in Hx as [Hx | Hx]; [now left |].
      rewrite Hs in Hx.
      destruct (get_singleton_snps_lineage _ _ _ Hx) as (snp & taxon & ->).
      right. now left.
Qed.

Lemma add_snps_annotation_ids (with_N : list (string * string * Q))
    (reference_seq : string) (records : list SeqRecord) :
  add_snps_annotation with_N reference_seq = Ok records ->
  map id records = map (fun x => fst (fst x)) with_N.
Proof.
  unfold add_snps_annotation. intros H. apply mapM_Ok in H.
  induction H as [| [[name residues] pcent] r with_N records Hr _ IH]; simpl;
    [reflexivity |].
  unfold annotate_snps in Hr.
  apply bind_Ok in Hr as (sn & _ & Hr). apply bind_Ok in Hr as (ss & _ & Hr).
  injection Hr as <-. simpl. now rewrite IH.
Qed.

(** X19: the tables of a run that returns.  The defining-SNP table has one
    row per lineage, in ascending order of lineage name and without
    repetition; the lineages are those the lineage file assigns to some
    record of the alignment other than the reference; every mask row and
    every representative row belongs to one of them. *)
Theorem run_tables (list_of_set : list string -> list string)
    (aln lineage_file : list (string * string))
    (defining_cut_off represent_cut_off : Q)
    (written : list rep_row) (to_mask : list mask_row) (rows : list defining_row) :
  get_all_snps list_of_set aln lineage_file defining_cut_off represent_cut_off
    = (written, Ok (to_mask, rows)) ->
  StronglySorted (fun a b => String.leb a b = true) (map fst rows) /\
  NoDup (map fst rows) /\
  (forall lineage,
     In lineage (map fst rows) <->
     exists rec, In rec aln /\ fst rec <> reference_id /\
                 lineage_of lineage_file (fst rec) = Some lineage) /\
  (forall row, In row to_mask -> In (fst (fst row)) (map fst rows)) /\
  (forall row, In row written -> In (fst row) (map fst rows)).
Proof.
  unfold get_all_snps.
  destruct (get_reference aln) as [reference |]; [| discriminate].
  destruct (add_N_annotation aln) as [with_N | e1] eqn:EN; cbn [bind]; [| discriminate].
  destruct (add_snps_annotation with_N (snd reference)) as [records | e2] eqn:ES;
    [| discriminate].
  intros H. apply lineage_loop_tables in H as (Hrows & Hwritten & Hmask).
  simpl in Hrows. rewrite Hrows.
  destruct (lineage_dict_shape records lineage_file) as [Hnd Hshape].
  set (lineages_dict := get_lineage_dict records lineage_file) in *.
  split; [| split; [| split; [| split]]].
  - apply sorted_StronglySorted; [apply String.leb_total | apply string_leb_trans].
  - eapply Permutation_NoDup; [| exact Hnd].
    apply Permutation_sym, sorted_perm.
  - intros lineage. rewrite sorted_In, (proj1 (Hshape lineage)).
    assert (Hids : map id records = map fst aln).
    { rewrite (add_snps_annotation_ids _ _ _ ES), <- (add_N_annotation_Ok _ _ EN).
      now rewrite map_map. }
    split.
    + intros Hne. destruct (dict_get lineage lineages_dict) as [| r l] eqn:Eg;
        [congruence |].
      assert (Hr : In r (dict_get lineage lineages_dict)) by (rewrite Eg; now left).
      apply lineage_dict_members in Hr as (Hr & Hnref & Hlin).
      assert (Hid : In (id r) (map fst aln)) by (rewrite <- Hids; now apply in_map).
      apply in_map_iff in Hid as (rec & Erec & Hrec).
      exists rec. rewrite Erec. auto.
    + intros (rec & Hrec & Hnref & Hlin).
      assert (Hid : In (fst rec) (map id records)) by (rewrite Hids; now apply in_map).
      apply in_map_iff in Hid as (r & Er & Hr).
      assert (Hin : In r (dict_get lineage lineages_dict)).
      { apply lineage_dict_members. rewrite Er. auto. }
      intros E. rewrite E in Hin. destruct Hin.
  - intros row Hrow. destruct (Hmask row Hrow) as [[] | H]. exact H.
  - intros row Hrow. destruct (Hwritten row Hrow) as [[] | H]. exact H.
Qed.

Lemma run_tables_witness :
  StronglySorted (fun a b => String.leb a b = true) (map fst [("X", EmptyString)]) /\
  NoDup (map fst [("X", EmptyString)]) /\
  (forall lineage,
     In lineage (map fst [("X", EmptyString)]) <->
     exists rec,
       In rec [("Wuhan/WH04/2020", "ACGT"); ("M1", "ACGA"); ("M2", "ACGA"); ("M3", "ATGT")] /\
       fst rec <> reference_id /\
       lineage_of [("M1", "X"); ("M2", "X"); ("M3", "X")] (fst rec) = Some lineage) /\
  (forall row, In row [("X", "2CT", "M3")] ->
     In (fst (fst row)) (map fst [("X", EmptyString)])) /\
  (forall row, In row [("X", "M1"); ("X", "M2"); ("X", "M3")] ->
     In (fst row) (map fst [("X", EmptyString)])).
Proof.
  apply (run_tables (fun s => s)
           [("Wuhan/WH04/2020", "ACGT"); ("M1", "ACGA"); ("M2", "ACGA"); ("M3", "ATGT")]
           [("M1", "X"); ("M2", "X"); ("M3", "X")] 90 10).
  reflexivity.
Defined.

(** ** From the alignment to the lineages *)

Lemma annotation_records (aln : list (string * string))
    (with_N : list (string * string * Q)) (reference_seq : string)
    (records : list SeqRecord) :
  add_N_annotation aln = Ok with_N ->
  add_snps_annotation with_N reference_seq = Ok records ->
  map (fun r => (id r, seq r)) records = aln /\
  Forall (annotated reference_seq) records.
Proof.
  unfold add_N_annotation, add_snps_annotation. intros HN HS.
  apply mapM_Ok in HN. apply mapM_Ok in HS. revert records HS.
  induction HN as [| [name residues] x aln with_N Hx _ IH]; intros records HS.
  - inversion HS; subst. split; constructor.
  - inversion HS as [| ? r ? records' Hr Hrest]; subst.
    destruct (IH records' Hrest) as [Emap Hann].
    cbn [fst snd] in Hx. apply bind_Ok in Hx as (p & Ep & Hx). injection Hx as <-.
    unfold annotate_snps in Hr.
    apply bind_Ok in Hr as (sn & Ef & Hr). apply bind_Ok in Hr as (ss & Es & Hr).
    injection Hr as <-. split.
    + simpl. now rewrite Emap.
    + constructor; [| exact Hann]. unfold annotated. cbn [seq pcent_N snps snp_string].
      auto.
Qed.

Lemma lineages_records_filter (lineage_file : list (string * string))
    (alignment : list SeqRecord) (lineage : string) :
  forall d,
  dict_get lineage (fold_left (add_to_lineage lineage_file) alignment d) =
  dict_get lineage d ++
  filter (fun r => negb (String.eqb (id r) reference_id) &&
                   match lineage_of lineage_file (id r) with
                   | Some l => String.eqb lineage l
                   | None => false
                   end) alignment.
Proof.
  induction alignment as [| a alignment IH]; simpl; intros d; [now rewrite app_nil_r |].
  rewrite IH. unfold add_to_lineage.
  destruct (String.eqb (id a) reference_id); simpl; [reflexivity |].
  destruct (lineage_of lineage_file (id a)) as [l |]; [| reflexivity].
  rewrite dict_get_append. destruct (String.eqb lineage l); [| reflexivity].
  now rewrite <- app_assoc.
Qed.

Lemma filter_ids_NoDup (keep : SeqRecord -> bool) (records : list SeqRecord) :
  NoDup (map id records) -> NoDup (map id (filter keep records)).
Proof.
  induction records as [| a records IH]; simpl; intros H; [constructor |].
  inversion H as [| ? ? Hnin Hnd]; subst.
  destruct (keep a); simpl; [| auto]. constructor; [| auto].
  intros Hin. apply Hnin. apply in_map_iff in Hin as (x & E & Hx).
  apply filter_In in Hx as [Hx _]. apply in_map_iff. eauto.
Qed.

(** X20: in a run whose annotation step returns, the annotated records are
    the records of the alignment in the same order, and the members of
    every lineage carry the annotations computed against the reference;
    when the identifiers of the alignment are distinct, so are those of
    every lineage. *)
Theorem lineage_members_annotated (aln lineage_file : list (string * string))
    (with_N : list (string * string * Q)) (reference_seq : string)
    (records : list SeqRecord) (lineage : string) :
  add_N_annotation aln = Ok with_N ->
  add_snps_annotation with_N reference_seq = Ok records ->
  map (fun r => (id r, seq r)) records = aln /\
  Forall (annotated reference_seq)
    (dict_get lineage (get_lineage_dict records lineage_file)) /\
  (NoDup (map fst aln) ->
   NoDup (map id (dict_get lineage (get_lineage_dict records lineage_file)))).
Proof.
  intros HN HS. destruct (annotation_records _ _ _ _ HN HS) as [Emap Hann].
  split; [exact Emap |]. split.
  - now apply get_lineage_dict_Forall.
  - intros Hnd. unfold get_lineage_dict.
    rewrite (dict_get_map_values (Py.sorted Qle_bool pcent_N)) by reflexivity.
    eapply Permutation_NoDup;
      [apply Permutation_map, Permutation_sym, sorted_perm |].
    rewrite lineages_records_filter. simpl. apply filter_ids_NoDup.
    rewrite <- Emap, map_map in Hnd. exact Hnd.
Qed.

Lemma lineage_members_annotated_witness :
  map (fun r => (id r, seq r))
      [mkSeqRecord "Wuhan/WH04/2020" "ACGT" (0 # 4) [] EmptyString;
       mkSeqRecord "M1" "ACGA" (0 # 4) ["4TA"] "4TA"]
  = [("Wuhan/WH04/2020", "ACGT"); ("M1", "ACGA")] /\
  Forall (annotated "ACGT")
    (dict_get "X"
       (get_lineage_dict
          [mkSeqRecord "Wuhan/WH04/2020" "ACGT" (0 # 4) [] EmptyString;
           mkSeqRecord "M1" "ACGA" (0 # 4) ["4TA"] "4TA"] [("M1", "X")])) /\
  (NoDup (map fst [("Wuhan/WH04/2020", "ACGT"); ("M1", "ACGA")]) ->
   NoDup (map id
            (dict_get "X"
               (get_lineage_dict
                  [mkSeqRecord "Wuhan/WH04/2020" "ACGT" (0 # 4) [] EmptyString;
                   mkSeqRecord "M1" "ACGA" (0 # 4) ["4TA"] "4TA"] [("M1", "X")])))).
Proof.
  apply (lineage_members_annotated
           [("Wuhan/WH04/2020", "ACGT"); ("M1", "ACGA")] [("M1", "X")]
           [("Wuhan/WH04/2020", "ACGT", 0 # 4); ("M1", "ACGA", 0 # 4)] "ACGT");
    reflexivity.
Defined.

(** ** When a run returns *)



Section Returns.
Variable list_of_set : list string -> list string.
Hypothesis list_of_set_perm : forall s, Permutation (list_of_set s) s.



End Returns.

